(** * AbsMaxChannelWiseWeightObserver: the per-channel scale search

    A shallow embedding of
    [paddleslim/quant/observers/abs_max_weight.py].

    Numbers.  The loop variable [factor] of [_cal_abs_max] is a Python
    float, an IEEE-754 binary64 value; how often the loop runs depends on
    the rounding of [factor += 0.02], so it is modelled bit for bit with
    the Standard Library's [SpecFloat].  The tensor kernels ([paddle.abs],
    [paddle.max], [paddle.round], the mean, ...) are modelled over exact
    rationals: tensors hold values of type [Q], the value of a float
    scalar entering a tensor operation is its exact rational value, and
    the rounding of the kernels themselves is outside the model. *)

From Stdlib Require Import ZArith QArith Qround Qabs Qminmax Bool List Lia Lqa.
From Stdlib Require Import Permutation.
From Stdlib Require Import Floats.SpecFloat.
Import ListNotations.

Set Implicit Arguments.

Local Open Scope Z_scope.

(** ** Python floats *)

Module PyFloat.

Definition prec : Z := 53.
Definition emax : Z := 1024.

Definition add : spec_float -> spec_float -> spec_float := SFadd prec emax.
Definition div : spec_float -> spec_float -> spec_float := SFdiv prec emax.
Definition leb : spec_float -> spec_float -> bool := SFleb.
Definition of_Z (z : Z) : spec_float := binary_normalize prec emax z 0 false.

(** The float literals of the source, as mantissa and exponent. *)
Definition lit_0_3 : spec_float := S754_finite false 5404319552844595 (-54).
Definition lit_0_02 : spec_float := S754_finite false 5764607523034235 (-58).
Definition lit_1_0 : spec_float := S754_finite false 4503599627370496 (-52).
Definition lit_1e_8 : spec_float := S754_finite false 6044629098073146 (-79).

(** The exact value of a float; infinities and NaN have none and are
    sent to 0 (no float of this development that is converted is one). *)
Definition to_Q (x : spec_float) : Q :=
  match x with
  | S754_finite s m e =>
      let z := if s then Z.neg m else Z.pos m in
      match e with
      | Z.neg p => Qmake z (2 ^ p)
      | _ => inject_Z (z * 2 ^ e)
      end
  | _ => 0%Q
  end.

End PyFloat.

(** [numpy.float32]: a binary32 value; [np_float32 x] casts a Python float. *)
Module NpFloat32.

Definition prec : Z := 24.
Definition emax : Z := 128.

Definition np_float32 (x : spec_float) : spec_float :=
  match x with
  | S754_finite s m e =>
      binary_normalize prec emax (if s then Z.neg m else Z.pos m) e s
  | _ => x
  end.

End NpFloat32.

(** [np.float32(1e-8)], the replacement of a zero abs-max. *)
Definition eps : Q := PyFloat.to_Q (NpFloat32.np_float32 PyFloat.lit_1e_8).

(** ** The candidate factors

    [factor = 0.3; while factor <= 1.0: ...; factor += 0.02]: the values
    [factor] takes in the loop body, in order.  [fuel] bounds the number
    of iterations looked at. *)
Fixpoint factor_grid (fuel : nat) (factor : spec_float) : list spec_float :=
  match fuel with
  | O => []
  | S fuel' =>
      if PyFloat.leb factor PyFloat.lit_1_0
      then factor :: factor_grid fuel' (PyFloat.add factor PyFloat.lit_0_02)
      else []
  end.

(** The factors of the search; 64 is more fuel than the loop uses
    ([factor_grid_enough] below). *)
Definition candidates : list spec_float := factor_grid 64 PyFloat.lit_0_3.

(** ** Tensors

    A tensor is its shape and its elements in row-major order. *)

Record tensor : Type := { shape : list nat; data : list Q }.

Definition numel (sh : list nat) : nat := fold_right Nat.mul 1%nat sh.

(** The multi-index of the element at flat position [k], and back. *)
Fixpoint unravel (sh : list nat) (k : nat) : list nat :=
  match sh with
  | [] => []
  | _ :: sh' => (k / numel sh')%nat :: unravel sh' (k mod numel sh')%nat
  end.

Fixpoint ravel (sh idx : list nat) : nat :=
  match sh, idx with
  | _ :: sh', i :: idx' => (i * numel sh' + ravel sh' idx')%nat
  | _, _ => O
  end.

(** The entries of [l] whose positions (counted from [i]) are not in
    [axes]: what is left of a shape or of a multi-index once the axes
    [axes] are reduced away. *)
Fixpoint drop_axes {A : Type} (axes : list nat) (i : nat) (l : list A) : list A :=
  match l with
  | [] => []
  | x :: l' =>
      if existsb (Nat.eqb i) axes
      then drop_axes axes (S i) l'
      else x :: drop_axes axes (S i) l'
  end.

Definition reduced_shape (axes sh : list nat) : list nat := drop_axes axes 0 sh.

(** The cell of the reduced tensor that element [k] is reduced into. *)
Definition cell_of (axes sh : list nat) (k : nat) : nat :=
  ravel (reduced_shape axes sh) (drop_axes axes 0 (unravel sh k)).

(** The elements of a tensor reduced into cell [j], in row-major order. *)
Definition slice (axes sh : list nat) (l : list Q) (j : nat) : list Q :=
  map snd
    (filter (fun p => Nat.eqb (cell_of axes sh (fst p)) j)
       (combine (seq 0 (length l)) l)).

(** A reduction ([paddle.max(x, axis=axes)], [x.mean(axis=axes)]) applies
    [f] to the elements of every cell; the axes listed, and only they,
    disappear from the shape (so a tensor of rank 1 reduced along no axis
    keeps its entries). *)
Definition reduce (f : list Q -> Q) (axes : list nat) (t : tensor) : tensor :=
  {| shape := reduced_shape axes (shape t);
     data := map (fun j => f (slice axes (shape t) (data t) j))
               (seq 0 (numel (reduced_shape axes (shape t)))) |}.

(** [paddle.unsqueeze(v, axis=axes)] followed by the broadcast against a
    tensor of shape [sh]: element [k] sees the entry of its cell. *)
Definition unsqueeze (axes sh : list nat) (v : list Q) : list Q :=
  map (fun k => nth (cell_of axes sh k) v 0%Q) (seq 0 (numel sh)).

Fixpoint map2 {A B C : Type} (f : A -> B -> C) (l1 : list A) (l2 : list B) : list C :=
  match l1, l2 with
  | x :: l1', y :: l2' => f x y :: map2 f l1' l2'
  | _, _ => []
  end.

Local Open Scope Q_scope.

Definition list_max (l : list Q) : Q :=
  match l with
  | [] => 0
  | x :: l' => fold_left Qmax l' x
  end.

Definition sum (l : list Q) : Q := fold_right Qplus 0 l.

Definition mean (l : list Q) : Q := sum l / inject_Z (Z.of_nat (length l)).

(** [paddle.round]: to the nearest integer, halves away from zero. *)
Definition round (q : Q) : Q :=
  if Qle_bool 0 q
  then inject_Z (Qfloor (q + (1 # 2)))
  else inject_Z (- Qfloor (- q + (1 # 2))).

(** [paddle.clip(x, lo, hi)]. *)
Definition clip (x : Q) (lo hi : Z) : Q :=
  Qmin (Qmax x (inject_Z lo)) (inject_Z hi).

(** A loss is a rational or [float('inf')]. *)
Inductive loss : Type :=
| PInf : loss
| Fin : Q -> loss.

(** [mse_loss < minimum_loss], elementwise; [mse_loss] is finite. *)
Definition lt_loss (m : Q) (b : loss) : bool :=
  match b with
  | PInf => true
  | Fin q => negb (Qle_bool q m)
  end.

(** [paddle.minimum(mse_loss, minimum_loss)], elementwise. *)
Definition minimum (m : Q) (b : loss) : loss :=
  match b with
  | PInf => Fin m
  | Fin q => Fin (Qmin m q)
  end.

(** [paddle.where(cond, x, y)] on three sequences of one length. *)
Fixpoint where_ (cond : list bool) (x y : list Q) : list Q :=
  match cond, x, y with
  | c :: cond', a :: x', b :: y' => (if c then a else b) :: where_ cond' x' y'
  | _, _, _ => []
  end.

(** ** The observer *)

(** The fields of [AbsMaxChannelWiseWeightObserverLayer].  [qmin], [qmax]
    and the channel axis come from the base class [ChannelWiseObserver]
    ([qmin_qmax] and [quant_axis()]), which is not part of this file: they
    are taken as given at construction. *)
Record observer : Type := {
  quant_bits : Z;
  calibration_loss : loss;
  qmin : Z;
  qmax : Z;
  quant_axis : Z;
  _max : option tensor;
  _scale : option tensor;
  _zero_point : option tensor
}.

Definition __init__ (qmin_qmax : Z * Z) (axis : Z) (bits : Z) : observer :=
  {| quant_bits := bits;
     calibration_loss := PInf;
     qmin := fst qmin_qmax;
     qmax := snd qmin_qmax;
     quant_axis := axis;
     _max := None;
     _scale := None;
     _zero_point := None |}.

(** ** The scale search *)

(** [[i for i in range(len(inputs.shape)) if i != self.quant_axis()]] *)
Definition reduce_axis_of (self : observer) (inputs : tensor) : list nat :=
  filter (fun i => negb (Z.of_nat i =? quant_axis self)%Z)
    (seq 0 (length (shape inputs))).

(** [paddle.where(abs_max_values == np.float32(0.0), np.float32(1e-8),
    abs_max_values)], on one entry. *)
Definition guard_zero (a : Q) : Q := if Qeq_bool a 0 then eps else a.

Definition abs_max_values_of (self : observer) (inputs : tensor) : list Q :=
  map guard_zero
    (data (reduce list_max (reduce_axis_of self inputs)
             {| shape := shape inputs; data := map Qabs (data inputs) |})).

(** One element through the simulated quantizer at scale [s]. *)
Definition quant (self : observer) (x s : Q) : Q :=
  clip (round (x / s * inject_Z (qmax self))) (qmin self) (qmax self).

Definition dequant (self : observer) (q s : Q) : Q :=
  q / inject_Z (qmax self) * s.

(** The mean squared error of every channel when the channels are
    quantized at [scales]. *)
Definition mse_loss_of (self : observer) (inputs : tensor) (scales : list Q) : list Q :=
  let reduce_axis := reduce_axis_of self inputs in
  let expand_scales := unsqueeze reduce_axis (shape inputs) scales in
  let quant_var := map2 (quant self) (data inputs) expand_scales in
  let quant_dequant_var := map2 (dequant self) quant_var expand_scales in
  data (reduce mean reduce_axis
          {| shape := shape inputs;
             data := map2 (fun x y => (x - y) ^ 2) (data inputs) quant_dequant_var |}).

(** The variables the loop updates. *)
Record search_state : Type := {
  factor : spec_float;
  minimum_loss : list loss;
  result : list Q
}.

(** The body of the [while] loop. *)
Definition search_step (self : observer) (inputs : tensor)
    (abs_max_values : list Q) (st : search_state) : search_state :=
  let scales := map (Qmult (PyFloat.to_Q (factor st))) abs_max_values in
  let factor' := PyFloat.add (factor st) PyFloat.lit_0_02 in
  let mse_loss := mse_loss_of self inputs scales in
  {| factor := factor';
     minimum_loss := map2 minimum mse_loss (minimum_loss st);
     result := where_ (map2 lt_loss mse_loss (minimum_loss st)) scales (result st) |}.

(** [while factor <= 1.0: ...], run for at most [fuel] iterations. *)
Fixpoint search_loop (fuel : nat) (self : observer) (inputs : tensor)
    (abs_max_values : list Q) (st : search_state) : option search_state :=
  match fuel with
  | O => None
  | S fuel' =>
      if PyFloat.leb (factor st) PyFloat.lit_1_0
      then search_loop fuel' self inputs abs_max_values
             (search_step self inputs abs_max_values st)
      else Some st
  end.

(** The variables as the loop finds them. *)
Definition initial_state (abs_max_values : list Q) : search_state :=
  {| factor := PyFloat.lit_0_3;
     minimum_loss := map (fun _ => PInf) abs_max_values;
     result := abs_max_values |}.

Definition _cal_abs_max (fuel : nat) (self : observer) (inputs : tensor) : option tensor :=
  let abs_max_values := abs_max_values_of self inputs in
  match search_loop fuel self inputs abs_max_values (initial_state abs_max_values) with
  | Some st =>
      Some {| shape := reduced_shape (reduce_axis_of self inputs) (shape inputs);
              data := result st |}
  | None => None
  end.

(** ** The methods

    A method call reads and updates the observer and either returns a
    value or raises.  A raise keeps the assignments made before it.
    [OutOfFuel] is not a Python outcome: it says that the bound given to
    the [while] loop was too small. *)

Inductive exn : Type :=
| AttributeError : exn.

Inductive outcome (A : Type) : Type :=
| Ok : A -> observer -> outcome A
| Raise : exn -> observer -> outcome A
| OutOfFuel : outcome A.

Arguments Raise {A} _ _.
Arguments OutOfFuel {A}.

Definition M (A : Type) : Type := observer -> outcome A.

Definition ret {A : Type} (a : A) : M A := fun self => Ok a self.

Definition bind {A B : Type} (m : M A) (k : A -> M B) : M B :=
  fun self =>
    match m self with
    | Ok a self' => k a self'
    | Raise e self' => Raise e self'
    | OutOfFuel => OutOfFuel
    end.

Definition get : M observer := fun self => Ok self self.
Definition put (self' : observer) : M unit := fun _ => Ok tt self'.
Definition raise {A : Type} (e : exn) : M A := fun self => Raise e self.
Definition out_of_fuel {A : Type} : M A := fun _ => OutOfFuel.

Declare Scope method_scope.
Delimit Scope method_scope with method.
Notation "x <- m ;; k" := (bind m (fun x => k))
  (at level 61, m at next level, right associativity) : method_scope.
Notation "m ;; k" := (bind m (fun _ => k))
  (at level 61, right associativity) : method_scope.
Local Open Scope method_scope.

Definition set_max (v : option tensor) (self : observer) : observer :=
  {| quant_bits := quant_bits self; calibration_loss := calibration_loss self;
     qmin := qmin self; qmax := qmax self; quant_axis := quant_axis self;
     _max := v; _scale := _scale self; _zero_point := _zero_point self |}.

Definition set_scale (v : option tensor) (self : observer) : observer :=
  {| quant_bits := quant_bits self; calibration_loss := calibration_loss self;
     qmin := qmin self; qmax := qmax self; quant_axis := quant_axis self;
     _max := _max self; _scale := v; _zero_point := _zero_point self |}.

Definition set_zero_point (v : option tensor) (self : observer) : observer :=
  {| quant_bits := quant_bits self; calibration_loss := calibration_loss self;
     qmin := qmin self; qmax := qmax self; quant_axis := quant_axis self;
     _max := _max self; _scale := _scale self; _zero_point := v |}.

Definition zeros (t : tensor) : tensor :=
  {| shape := shape t; data := map (fun _ => 0) (data t) |}.

(** [paddle.zeros_like(x)] reads the shape and dtype of [x]; [None] has
    neither, and the call raises. *)
Definition zeros_like (x : option tensor) : M tensor :=
  match x with
  | Some t => ret (zeros t)
  | None => raise AttributeError
  end.

Definition forward (fuel : nat) (inputs : tensor) : M tensor :=
  self <- get ;;
  match _max self with
  | None =>
      match _cal_abs_max fuel self inputs with
      | Some r => put (set_max (Some r) self) ;; ret inputs
      | None => out_of_fuel
      end
  | Some _ => ret inputs
  end.

Definition min_value : M Q := ret 0.

Definition max_value : M (option tensor) :=
  self <- get ;; ret (_max self).

Definition cal_thresholds : M unit :=
  self <- get ;;
  put (set_scale (_max self) self) ;;
  self <- get ;;
  z <- zeros_like (_scale self) ;;
  self <- get ;;
  put (set_zero_point (Some z) self).

Definition scales : M (option tensor) :=
  self <- get ;;
  (match _scale self with
   | None => cal_thresholds
   | Some _ => ret tt
   end) ;;
  self <- get ;;
  ret (_scale self).

Definition zero_points : M (option tensor) :=
  self <- get ;;
  (match _zero_point self with
   | None => cal_thresholds
   | Some _ => ret tt
   end) ;;
  self <- get ;;
  ret (_zero_point self).

(** *** Sequences of calls *)

Inductive call : Type :=
| Forward : nat -> tensor -> call
| MinValue : call
| MaxValue : call
| CalThresholds : call
| Scales : call
| ZeroPoints : call.

(** The observer a call leaves behind, whether it returned or raised. *)
Definition state_after {A : Type} (m : M A) (self : observer) : observer :=
  match m self with
  | Ok _ self' => self'
  | Raise _ self' => self'
  | OutOfFuel => self
  end.

Definition perform (c : call) (self : observer) : observer :=
  match c with
  | Forward fuel inputs => state_after (forward fuel inputs) self
  | MinValue => state_after min_value self
  | MaxValue => state_after max_value self
  | CalThresholds => state_after cal_thresholds self
  | Scales => state_after scales self
  | ZeroPoints => state_after zero_points self
  end.

Definition run (cs : list call) (self : observer) : observer :=
  fold_left (fun s c => perform c s) cs self.

Definition is_forward (c : call) : bool :=
  match c with
  | Forward _ _ => true
  | _ => false
  end.

(** ** Notions the properties are stated with *)

(** The loop body, once for every factor of a grid. *)
Fixpoint run_grid (self : observer) (inputs : tensor) (abs_max_values : list Q)
    (g : list spec_float) (st : search_state) : search_state :=
  match g with
  | [] => st
  | _ :: g' =>
      run_grid self inputs abs_max_values g'
        (search_step self inputs abs_max_values st)
  end.

(** The number of channels: the entries of the reduced tensor. *)
Definition channels_of (self : observer) (inputs : tensor) : nat :=
  numel (reduced_shape (reduce_axis_of self inputs) (shape inputs)).

(** The sequences the loop carries keep one entry per channel. *)
Definition sized (self : observer) (inputs : tensor) (st : search_state) : Prop :=
  length (result st) = channels_of self inputs /\
  length (minimum_loss st) = channels_of self inputs.

(** An entry is a candidate scale of its channel: some factor of the
    grid [G] times the channel's abs-max. *)
Definition candidate_scale (self : observer) (inputs : tensor)
    (G : list spec_float) (c : nat) (v : Q) : Prop :=
  exists f, In f G /\
            v = PyFloat.to_Q f * nth c (abs_max_values_of self inputs) 0.

Definition all_candidates (self : observer) (inputs : tensor)
    (G : list spec_float) (st : search_state) : Prop :=
  forall c, (c < channels_of self inputs)%nat ->
            candidate_scale self inputs G c (nth c (result st) 0).

(** The mean squared error of channel [c] when it is quantized at the
    scale [s]. *)
Definition channel_mse (self : observer) (inputs : tensor) (c : nat) (s : Q) : Q :=
  nth c (mse_loss_of self inputs (map (fun _ => s) (abs_max_values_of self inputs))) 0.

(** The search is at its best in channel [c] among the factors [V]. *)
Definition best_so_far (self : observer) (inputs : tensor) (V : list spec_float)
    (c : nat) (st : search_state) : Prop :=
  exists m,
    nth c (minimum_loss st) PInf = Fin m /\
    m == channel_mse self inputs c (nth c (result st) 0) /\
    forall f, In f V ->
      m <= channel_mse self inputs c
             (PyFloat.to_Q f * nth c (abs_max_values_of self inputs) 0).

(** A factor strictly between 0 and 1. *)
Definition proper_fraction (f : spec_float) : bool :=
  match (0 ?= PyFloat.to_Q f), (PyFloat.to_Q f ?= 1) with
  | Lt, Lt => true
  | _, _ => false
  end.

(** The channel axis is an axis of the tensor. *)
Definition valid_axis (self : observer) (inputs : tensor) : Prop :=
  (0 <= quant_axis self < Z.of_nat (length (shape inputs)))%Z.

(** Every value of channel [c] is zero. *)
Definition zero_channel (self : observer) (inputs : tensor) (c : nat) : Prop :=
  forall k, (k < length (data inputs))%nat ->
            cell_of (reduce_axis_of self inputs) (shape inputs) k = c ->
            nth k (data inputs) 0 == 0.

(** Once the loss of channel [c] is zero, no later candidate is strictly
    better: the entry stays at [v]. *)
Definition settled (self : observer) (inputs : tensor) (c : nat) (v : Q)
    (st : search_state) : Prop :=
  sized self inputs st /\
  nth c (result st) 0 = v /\
  exists m, nth c (minimum_loss st) PInf = Fin m /\ m == 0.

(** Either no threshold is stored, or the scale is the cached max and the
    zero points are its zeros. *)
Definition coherent (self : observer) : Prop :=
  (_scale self = None /\ _zero_point self = None) \/
  (exists m, _max self = Some m /\ _scale self = Some m /\
             _zero_point self = Some (zeros m)).

(** Without a [forward] nothing is ever stored. *)
Definition unset (self : observer) : Prop :=
  _max self = None /\ _scale self = None /\ _zero_point self = None.

(** [forward] writes [_max] and nothing else. *)
Definition same_frame (s s' : observer) : Prop :=
  quant_bits s' = quant_bits s /\ calibration_loss s' = calibration_loss s /\
  qmin s' = qmin s /\ qmax s' = qmax s /\ quant_axis s' = quant_axis s /\
  _scale s' = _scale s /\ _zero_point s' = _zero_point s.

(** A sequence of [forward] calls. *)
Definition forwards (l : list (nat * tensor)) : list call :=
  map (fun p => Forward (fst p) (snd p)) l.

(** ** Notions of the further properties *)

(** Some axis is reduced: the tensor has an axis besides the channel
    axis, as a weight of rank 2 or more has.  The further properties of
    the search are stated for such tensors. *)
Definition reduces (self : observer) (inputs : tensor) : Prop :=
  reduce_axis_of self inputs <> [].

(** A tensor holds as many elements as its shape says. *)
Definition well_formed (t : tensor) : Prop :=
  length (data t) = numel (shape t).

(** The elements of channel [c], in row-major order. *)
Definition channel (self : observer) (inputs : tensor) (c : nat) : list Q :=
  slice (reduce_axis_of self inputs) (shape inputs) (data inputs) c.

(** One element quantized and dequantized at scale [s]: an entry of
    [quant_dequant_var]. *)
Definition quant_dequant (self : observer) (x s : Q) : Q :=
  dequant self (quant self x s) s.

(** The squared reconstruction error of one element at scale [s]. *)
Definition element_error (self : observer) (s x : Q) : Q :=
  (x - quant_dequant self x s) ^ 2.

(** The result of the search on [inputs], as the loop leaves it. *)
Definition searched (self : observer) (inputs : tensor) : list Q :=
  result (run_grid self inputs (abs_max_values_of self inputs) candidates
            (initial_state (abs_max_values_of self inputs))).

(** The first and the last factor of the search. *)
Definition first_factor : spec_float := PyFloat.lit_0_3.
Definition last_factor : spec_float := S754_finite false 8827055269646177 (-53).

Definition in_grid_range (f : spec_float) : bool :=
  Qle_bool (PyFloat.to_Q first_factor) (PyFloat.to_Q f) &&
  Qle_bool (PyFloat.to_Q f) (PyFloat.to_Q last_factor).

Definition below_last (f : spec_float) : bool :=
  match PyFloat.to_Q f ?= PyFloat.to_Q last_factor with
  | Lt => true
  | _ => false
  end.

(** [i] is the first position of a least value among [e 0], ...,
    [e (n-1)]. *)
Definition first_argmin (e : nat -> Q) (n i : nat) : Prop :=
  (i < n)%nat /\
  (forall j, (j < n)%nat -> e i <= e j) /\
  (forall j, (j < i)%nat -> e i < e j).

(** The error of channel [c] at the scale that the [j]-th factor of the
    grid [V] gives it. *)
Definition grid_error (self : observer) (inputs : tensor) (V : list spec_float)
    (c j : nat) : Q :=
  channel_mse self inputs c
    (PyFloat.to_Q (nth j V PyFloat.lit_1_0) *
     nth c (abs_max_values_of self inputs) 0).

(** After the factors [V], the entry of channel [c] is the scale of the
    first factor of least error, and the loss kept is its error. *)
Definition first_best (self : observer) (inputs : tensor) (V : list spec_float)
    (c : nat) (st : search_state) : Prop :=
  exists i m,
    nth c (result st) 0 =
      PyFloat.to_Q (nth i V PyFloat.lit_1_0) *
      nth c (abs_max_values_of self inputs) 0 /\
    nth c (minimum_loss st) PInf = Fin m /\
    m == grid_error self inputs V c i /\
    first_argmin (grid_error self inputs V c) (length V) i.

(** A function applied to every element of a tensor: [-inputs] is
    [map_tensor Qopp inputs], [k * inputs] is [map_tensor (Qmult k) inputs]. *)
Definition map_tensor (g : Q -> Q) (t : tensor) : tensor :=
  {| shape := shape t; data := map g (data t) |}.

(** The configuration of an observer: what [__init__] takes from its
    arguments and from the base class. *)
Definition same_config (s s' : observer) : Prop :=
  quant_bits s' = quant_bits s /\ calibration_loss s' = calibration_loss s /\
  qmin s' = qmin s /\ qmax s' = qmax s /\ quant_axis s' = quant_axis s.

Definition is_ok {A : Type} (o : outcome A) : bool :=
  match o with
  | Ok _ _ => true
  | _ => false
  end.

(** The call returns: it does not raise (and the loop has its fuel). *)
Definition returns (c : call) (self : observer) : bool :=
  match c with
  | Forward fuel inputs => is_ok (forward fuel inputs self)
  | MinValue => is_ok (min_value self)
  | MaxValue => is_ok (max_value self)
  | CalThresholds => is_ok (cal_thresholds self)
  | Scales => is_ok (scales self)
  | ZeroPoints => is_ok (zero_points self)
  end.

(** ** Examples *)

(** Modelled from the spec: the integer range [qmin_qmax] of the base
    class, which is not part of this file; for signed symmetric
    quantization at [b] bits, [qmin = -(2^(b-1)-1)] and
    [qmax = 2^(b-1)-1]. *)
Definition qmin_qmax (bits : Z) : Z * Z :=
  (- (2 ^ (bits - 1) - 1), 2 ^ (bits - 1) - 1)%Z.

(** An 8-bit observer of axis 0 and the tensor
    [[[1, 2, 3, 4], [10, 20, 30, -40]]]. *)
Definition example_observer : observer := __init__ (qmin_qmax 8) 0 8.

Definition example_tensor : tensor :=
  {| shape := [2; 4]%nat; data := [1; 2; 3; 4; 10; 20; 30; -40] |}.

Definition example_max : tensor :=
  Eval vm_compute in
    match _cal_abs_max 36 example_observer example_tensor with
    | Some r => {| shape := shape r; data := data r |}
    | None => {| shape := []; data := [] |}
    end.

(** The same observer with an axis the tensor does not have. *)
Definition misconfigured_observer : observer := __init__ (qmin_qmax 8) 2 8.

(** What the search returns for it: one value, no dimensions. *)
Definition misconfigured_max : tensor :=
  Eval vm_compute in
    match _cal_abs_max 36 misconfigured_observer example_tensor with
    | Some r => r
    | None => {| shape := []; data := [] |}
    end.

(** A tensor whose second channel is all zeros. *)
Definition zero_row_tensor : tensor :=
  {| shape := [2; 3]%nat; data := [1; -2; 3; 0; 0; 0] |}.

(** A tensor with the first channel of [example_tensor] and another
    second channel. *)
Definition other_rows_tensor : tensor :=
  {| shape := [2; 4]%nat; data := [1; 2; 3; 4; 5; -6; 7; 8] |}.

(** A tensor whose first channel holds 0 and values of magnitude 5. *)
Definition ternary_tensor : tensor :=
  {| shape := [2; 3]%nat; data := [5; -5; 0; 1; 2; 3] |}.

(** A tensor whose second channel is the first channel of
    [example_tensor] in reverse order. *)
Definition reversed_rows_tensor : tensor :=
  {| shape := [2; 4]%nat; data := [-40; 30; 20; 10; 4; 3; 2; 1] |}.

(** The example observer once [forward] has stored a max. *)
Definition calibrated_observer : observer :=
  set_max (Some example_max) example_observer.

(** * Properties *)

(** ** The literals are the floats nearest to their decimals *)

Lemma lit_0_3_nearest :
  PyFloat.div (PyFloat.of_Z 3) (PyFloat.of_Z 10) = PyFloat.lit_0_3.
Proof. vm_compute. reflexivity. Qed.

Lemma lit_0_02_nearest :
  PyFloat.div (PyFloat.of_Z 2) (PyFloat.of_Z 100) = PyFloat.lit_0_02.
Proof. vm_compute. reflexivity. Qed.

Lemma lit_1_0_exact : PyFloat.of_Z 1 = PyFloat.lit_1_0.
Proof. vm_compute. reflexivity. Qed.

Lemma lit_1e_8_nearest :
  PyFloat.div (PyFloat.of_Z 1) (PyFloat.of_Z 100000000) = PyFloat.lit_1e_8.
Proof. vm_compute. reflexivity. Qed.

Lemma eps_value : eps = 11258999 # 1125899906842624.
Proof. vm_compute. reflexivity. Qed.

Lemma eps_pos : 0 < eps.
Proof. rewrite eps_value. reflexivity. Qed.

(** ** The loop and its fuel *)

(** More fuel than the loop needs changes nothing. *)
Lemma factor_grid_more_fuel (n k : nat) (f : spec_float) :
  (length (factor_grid n f) < n)%nat ->
  factor_grid (n + k) f = factor_grid n f.
Proof.
  revert f. induction n as [|n IH]; intros f Hlen; simpl in *.
  - lia.
  - destruct (PyFloat.leb f PyFloat.lit_1_0); [|reflexivity].
    simpl in Hlen. f_equal. apply IH. lia.
Qed.

Lemma candidates_length : length candidates = 35%nat.
Proof. vm_compute. reflexivity. Qed.

Lemma factor_grid_enough (fuel : nat) :
  (36 <= fuel)%nat -> factor_grid fuel PyFloat.lit_0_3 = candidates.
Proof.
  intros H. replace fuel with (36 + (fuel - 36))%nat by lia.
  rewrite factor_grid_more_fuel.
  - vm_compute. reflexivity.
  - vm_compute. lia.
Qed.

Lemma search_loop_run_grid self inputs amv (fuel : nat) (st : search_state) :
  (length (factor_grid fuel (factor st)) < fuel)%nat ->
  search_loop fuel self inputs amv st =
  Some (run_grid self inputs amv (factor_grid fuel (factor st)) st).
Proof.
  revert st. induction fuel as [|fuel IH]; intros st Hlen; simpl in *.
  - lia.
  - destruct (PyFloat.leb (factor st) PyFloat.lit_1_0); [|reflexivity].
    simpl in Hlen. simpl. apply IH. simpl. lia.
Qed.

(** With fuel for 36 tests of the loop condition the search returns: the
    body runs once per candidate. *)
Lemma _cal_abs_max_enough (fuel : nat) self inputs :
  (36 <= fuel)%nat ->
  _cal_abs_max fuel self inputs =
  Some {| shape := reduced_shape (reduce_axis_of self inputs) (shape inputs);
          data := result (run_grid self inputs (abs_max_values_of self inputs)
                            candidates
                            (initial_state (abs_max_values_of self inputs))) |}.
Proof.
  intros H. unfold _cal_abs_max.
  rewrite search_loop_run_grid; simpl factor.
  - rewrite (factor_grid_enough H). reflexivity.
  - rewrite (factor_grid_enough H), candidates_length. lia.
Qed.

(** ** Sequences of one length *)

Lemma map2_length {A B C : Type} (f : A -> B -> C) (l1 : list A) (l2 : list B) :
  length (map2 f l1 l2) = Nat.min (length l1) (length l2).
Proof.
  revert l2. induction l1 as [|x l1 IH]; intros [|y l2]; simpl; auto.
Qed.

Lemma nth_map2 {A B C : Type} (f : A -> B -> C) (l1 : list A) (l2 : list B)
    (k : nat) (da : A) (db : B) (dc : C) :
  (k < length l1)%nat -> (k < length l2)%nat ->
  nth k (map2 f l1 l2) dc = f (nth k l1 da) (nth k l2 db).
Proof.
  revert l1 l2. induction k as [|k IH]; intros [|x l1] [|y l2]; simpl; intros H1 H2;
    try lia; auto.
  apply IH; lia.
Qed.

Lemma where_length (cond : list bool) (x y : list Q) :
  length (where_ cond x y) =
  Nat.min (length cond) (Nat.min (length x) (length y)).
Proof.
  revert x y. induction cond as [|c cond IH]; intros [|a x] [|b y]; simpl; auto.
Qed.

Lemma nth_where (cond : list bool) (x y : list Q) (k : nat) (d : Q) :
  (k < length cond)%nat -> (k < length x)%nat -> (k < length y)%nat ->
  nth k (where_ cond x y) d =
  if nth k cond false then nth k x d else nth k y d.
Proof.
  revert cond x y. induction k as [|k IH]; intros [|c cond] [|a x] [|b y]; simpl;
    intros H1 H2 H3; try lia; auto.
  apply IH; lia.
Qed.

Lemma nth_map_const {A B : Type} (v : B) (l : list A) (c : nat) (d : B) :
  (c < length l)%nat -> nth c (map (fun _ => v) l) d = v.
Proof.
  revert c. induction l as [|x l IH]; intros [|c] H; simpl in *; try lia.
  - reflexivity.
  - apply IH. lia.
Qed.

Lemma nth_scaled (f : Q) (l : list Q) (k : nat) :
  (k < length l)%nat -> nth k (map (Qmult f) l) 0 = f * nth k l 0.
Proof.
  intros H. rewrite (nth_indep _ 0 (f * 0)) by (rewrite length_map; exact H).
  apply map_nth.
Qed.

(** Against a loss of [float('inf')] every comparison succeeds. *)
Lemma where_below_inf (ms sc l : list Q) :
  length ms = length l -> length sc = length l ->
  where_ (map2 lt_loss ms (map (fun _ => PInf) l)) sc l = sc.
Proof.
  revert ms sc. induction l as [|a l IH]; intros [|m ms] [|s sc]; simpl;
    intros H1 H2; try discriminate; auto.
  f_equal. apply IH; congruence.
Qed.

Lemma candidates_unfold :
  candidates =
  PyFloat.lit_0_3 ::
    factor_grid 63 (PyFloat.add PyFloat.lit_0_3 PyFloat.lit_0_02).
Proof. vm_compute. reflexivity. Qed.

(** ** One search *)

Section Search.

Variable self : observer.
Variable inputs : tensor.

Let axes : list nat := reduce_axis_of self inputs.
Let amv : list Q := abs_max_values_of self inputs.
Let channels : nat := channels_of self inputs.
Let step : search_state -> search_state := search_step self inputs amv.

Lemma abs_max_values_length : length amv = channels.
Proof.
  unfold amv, abs_max_values_of, reduce. simpl.
  rewrite !length_map, length_seq. reflexivity.
Qed.

Lemma mse_loss_length (scales : list Q) :
  length (mse_loss_of self inputs scales) = channels.
Proof.
  unfold mse_loss_of, reduce. simpl.
  rewrite length_map, length_seq. reflexivity.
Qed.

Lemma initial_sized : sized self inputs (initial_state amv).
Proof.
  split; simpl; [|rewrite length_map]; apply abs_max_values_length.
Qed.

Lemma step_sized (st : search_state) : sized self inputs st -> sized self inputs (step st).
Proof.
  intros [Hr Hm]. unfold step, search_step, sized. simpl.
  rewrite where_length, !map2_length, !mse_loss_length, length_map,
    abs_max_values_length, Hr, Hm.
  split; lia.
Qed.

(** What one iteration does to the entry of channel [c]. *)
Lemma step_result (st : search_state) (c : nat) :
  sized self inputs st -> (c < channels)%nat ->
  nth c (result (step st)) 0 =
  if lt_loss (nth c (mse_loss_of self inputs
                       (map (Qmult (PyFloat.to_Q (factor st))) amv)) 0)
       (nth c (minimum_loss st) PInf)
  then PyFloat.to_Q (factor st) * nth c amv 0
  else nth c (result st) 0.
Proof.
  intros [Hr Hm] Hc. unfold step, search_step. simpl.
  rewrite nth_where.
  - rewrite (nth_map2 lt_loss _ _ 0 PInf false)
      by (rewrite ?mse_loss_length, ?Hm; exact Hc).
    rewrite nth_scaled by (rewrite abs_max_values_length; exact Hc).
    reflexivity.
  - rewrite map2_length, mse_loss_length, Hm. lia.
  - rewrite length_map, abs_max_values_length. exact Hc.
  - rewrite Hr. exact Hc.
Qed.

Lemma step_minimum_loss (st : search_state) (c : nat) :
  sized self inputs st -> (c < channels)%nat ->
  nth c (minimum_loss (step st)) PInf =
  minimum (nth c (mse_loss_of self inputs
                    (map (Qmult (PyFloat.to_Q (factor st))) amv)) 0)
    (nth c (minimum_loss st) PInf).
Proof.
  intros [Hr Hm] Hc. unfold step, search_step. simpl.
  apply nth_map2; rewrite ?mse_loss_length, ?Hm; exact Hc.
Qed.

Lemma step_factor (st : search_state) :
  factor (step st) = PyFloat.add (factor st) PyFloat.lit_0_02.
Proof. reflexivity. Qed.

(** The first iteration overwrites every entry: each loss is below the
    initial [float('inf')]. *)
Lemma first_step_result :
  result (step (initial_state amv)) =
  map (Qmult (PyFloat.to_Q PyFloat.lit_0_3)) amv.
Proof.
  unfold step, search_step. simpl.
  apply where_below_inf.
  - rewrite mse_loss_length, abs_max_values_length. reflexivity.
  - apply length_map.
Qed.

Lemma run_grid_sized (g : list spec_float) (st : search_state) :
  sized self inputs st -> sized self inputs (run_grid self inputs amv g st).
Proof.
  revert st. induction g as [|f g IH]; intros st Hsz; simpl.
  - exact Hsz.
  - apply IH, step_sized, Hsz.
Qed.

Lemma run_grid_candidates (G : list spec_float) (fuel : nat)
    (st : search_state) (f0 : spec_float) :
  factor st = f0 ->
  incl (factor_grid fuel f0) G ->
  sized self inputs st -> all_candidates self inputs G st ->
  all_candidates self inputs G (run_grid self inputs amv (factor_grid fuel f0) st).
Proof.
  revert st f0. induction fuel as [|fuel IH]; intros st f0 Hf Hincl Hsz Hall.
  - exact Hall.
  - cbn [factor_grid] in *.
    destruct (PyFloat.leb f0 PyFloat.lit_1_0); [|exact Hall].
    cbn [run_grid]. fold step.
    apply IH.
    + rewrite step_factor, Hf. reflexivity.
    + intros f Hin. apply Hincl. right. exact Hin.
    + apply step_sized, Hsz.
    + intros c Hc. rewrite step_result by assumption.
      destruct (lt_loss _ _).
      * exists (factor st). split; [apply Hincl; left; symmetry; exact Hf|reflexivity].
      * apply Hall, Hc.
Qed.

Lemma run_grid_cons (f : spec_float) (g : list spec_float) (st : search_state) :
  run_grid self inputs amv (f :: g) st = run_grid self inputs amv g (step st).
Proof. reflexivity. Qed.

Lemma first_step_factor :
  factor (step (initial_state amv)) =
  PyFloat.add PyFloat.lit_0_3 PyFloat.lit_0_02.
Proof. reflexivity. Qed.

Lemma search_candidates :
  all_candidates self inputs candidates
    (run_grid self inputs amv candidates (initial_state amv)).
Proof.
  pose proof candidates_unfold as E.
  rewrite E, run_grid_cons.
  apply run_grid_candidates.
  - apply first_step_factor.
  - apply incl_tl, incl_refl.
  - apply step_sized, initial_sized.
  - intros c Hc. rewrite first_step_result.
    rewrite nth_scaled by (rewrite abs_max_values_length; exact Hc).
    exists PyFloat.lit_0_3. split; [left|]; reflexivity.
Qed.

End Search.

(** ** The factors of the grid *)

Lemma candidates_proper (f : spec_float) :
  In f candidates -> 0 < PyFloat.to_Q f /\ PyFloat.to_Q f < 1.
Proof.
  assert (H : forallb proper_fraction candidates = true)
    by (vm_compute; reflexivity).
  rewrite forallb_forall in H. intros Hin. specialize (H f Hin).
  unfold proper_fraction in H. rewrite !Qlt_alt.
  destruct (0 ?= PyFloat.to_Q f); try discriminate.
  destruct (PyFloat.to_Q f ?= 1); try discriminate.
  split; reflexivity.
Qed.

(** ** The shape of the result *)

Lemma existsb_filter_seq (p : nat -> bool) (n j : nat) :
  existsb (Nat.eqb j) (filter p (seq 0 n)) = (j <? n)%nat && p j.
Proof.
  apply eq_true_iff_eq.
  rewrite existsb_exists, andb_true_iff, Nat.ltb_lt. split.
  - intros [x [Hx Hj]]. apply Nat.eqb_eq in Hj. subst x.
    apply filter_In in Hx. destruct Hx as [Hx Hp]. apply in_seq in Hx.
    split; [lia|exact Hp].
  - intros [Hlt Hp]. exists j. split; [|apply Nat.eqb_refl].
    apply filter_In. split; [apply in_seq; lia|exact Hp].
Qed.

Lemma drop_axes_none {A : Type} (axes : list nat) (i : nat) (l : list A) :
  (forall j, (i <= j < i + length l)%nat -> existsb (Nat.eqb j) axes = true) ->
  drop_axes axes i l = [].
Proof.
  revert i. induction l as [|x l IH]; intros i H; simpl.
  - reflexivity.
  - rewrite H by (simpl; lia). apply IH. intros j Hj. apply H. simpl. lia.
Qed.

Lemma drop_axes_one {A : Type} (axes : list nat) (a i : nat) (l : list A) (d : A) :
  (forall j, (i <= j < i + length l)%nat ->
             existsb (Nat.eqb j) axes = negb (j =? a)%nat) ->
  (i <= a < i + length l)%nat ->
  drop_axes axes i l = [nth (a - i) l d].
Proof.
  revert i. induction l as [|x l IH]; intros i H Ha; simpl in *.
  - lia.
  - rewrite H by lia. destruct (Nat.eqb_spec i a) as [->|Hne]; simpl.
    + rewrite Nat.sub_diag. f_equal. apply drop_axes_none.
      intros j Hj. rewrite H by lia.
      destruct (Nat.eqb_spec j a); [lia|reflexivity].
    + replace (a - i)%nat with (S (a - S i)) by lia.
      apply IH; [|lia]. intros j Hj. apply H. lia.
Qed.

Section Shape.

Variable self : observer.
Variable inputs : tensor.

Lemma reduce_axis_mem (j : nat) :
  existsb (Nat.eqb j) (reduce_axis_of self inputs) =
  (j <? length (shape inputs))%nat && negb (Z.of_nat j =? quant_axis self)%Z.
Proof. apply existsb_filter_seq. Qed.

(** A valid channel axis is the one axis that stays. *)
Lemma reduced_shape_valid :
  valid_axis self inputs ->
  reduced_shape (reduce_axis_of self inputs) (shape inputs) =
  [nth (Z.to_nat (quant_axis self)) (shape inputs) O].
Proof.
  intros Hv. unfold reduced_shape, valid_axis in *.
  rewrite drop_axes_one with (a := Z.to_nat (quant_axis self)) (d := O).
  - rewrite Nat.sub_0_r. reflexivity.
  - intros j Hj. rewrite reduce_axis_mem.
    replace (j <? length (shape inputs))%nat with true
      by (symmetry; apply Nat.ltb_lt; lia).
    simpl. f_equal.
    destruct (Z.eqb_spec (Z.of_nat j) (quant_axis self)) as [E|E];
      destruct (Nat.eqb_spec j (Z.to_nat (quant_axis self))) as [E'|E'];
      try reflexivity; lia.
  - lia.
Qed.

(** With an axis outside the rank every axis is reduced: the result is
    a tensor without dimensions, of one element. *)
Lemma reduced_shape_invalid :
  ~ valid_axis self inputs ->
  reduced_shape (reduce_axis_of self inputs) (shape inputs) = [].
Proof.
  intros Hv. unfold reduced_shape, valid_axis in *.
  apply drop_axes_none. intros j Hj. rewrite reduce_axis_mem.
  replace (j <? length (shape inputs))%nat with true
    by (symmetry; apply Nat.ltb_lt; lia).
  simpl. apply negb_true_iff, Z.eqb_neq. lia.
Qed.

Lemma channels_valid :
  valid_axis self inputs ->
  numel (reduced_shape (reduce_axis_of self inputs) (shape inputs)) =
  nth (Z.to_nat (quant_axis self)) (shape inputs) O.
Proof.
  intros Hv. rewrite (reduced_shape_valid Hv). simpl. lia.
Qed.

End Shape.

(** ** The abs-max of a channel is positive *)

Lemma nth_map_seq {A : Type} (g : nat -> A) (n c : nat) (d : A) :
  (c < n)%nat -> nth c (map g (seq 0 n)) d = g c.
Proof.
  intros H. rewrite (nth_indep _ d (g O)) by (rewrite length_map, length_seq; exact H).
  rewrite map_nth, seq_nth by exact H. reflexivity.
Qed.

Lemma fold_left_Qmax_ge (l : list Q) (x : Q) : x <= fold_left Qmax l x.
Proof.
  revert x. induction l as [|y l IH]; intros x; simpl.
  - apply Qle_refl.
  - eapply Qle_trans; [apply Q.le_max_l|apply IH].
Qed.

Lemma list_max_nonneg (l : list Q) :
  (forall v, In v l -> 0 <= v) -> 0 <= list_max l.
Proof.
  destruct l as [|x l]; simpl; intros H.
  - apply Qle_refl.
  - eapply Qle_trans; [apply H; left; reflexivity|apply fold_left_Qmax_ge].
Qed.

Lemma slice_incl (axes sh : list nat) (l : list Q) (j : nat) (v : Q) :
  In v (slice axes sh l j) -> In v l.
Proof.
  unfold slice. rewrite in_map_iff. intros [[k w] [E Hin]]. simpl in E. subst w.
  apply filter_In in Hin. destruct Hin as [Hin _].
  eapply in_combine_r, Hin.
Qed.

Lemma guard_zero_pos (a : Q) : 0 <= a -> 0 < guard_zero a.
Proof.
  intros H. unfold guard_zero. destruct (Qeq_bool a 0) eqn:E.
  - apply eps_pos.
  - apply Qeq_bool_neq in E. apply Qle_lteq in H. destruct H as [H|H].
    + exact H.
    + exfalso. apply E. symmetry. exact H.
Qed.

Lemma abs_max_values_nth self inputs (c : nat) :
  (c < numel (reduced_shape (reduce_axis_of self inputs) (shape inputs)))%nat ->
  nth c (abs_max_values_of self inputs) 0 =
  guard_zero
    (list_max (slice (reduce_axis_of self inputs) (shape inputs)
                 (map Qabs (data inputs)) c)).
Proof.
  intros H. unfold abs_max_values_of, reduce. simpl.
  rewrite (nth_indep _ 0 (guard_zero 0))
    by (rewrite !length_map, length_seq; exact H).
  rewrite map_nth, nth_map_seq by exact H. reflexivity.
Qed.

Lemma abs_max_values_pos self inputs (c : nat) :
  (c < numel (reduced_shape (reduce_axis_of self inputs) (shape inputs)))%nat ->
  0 < nth c (abs_max_values_of self inputs) 0.
Proof.
  intros H. rewrite abs_max_values_nth by exact H.
  apply guard_zero_pos, list_max_nonneg. intros v Hv.
  apply slice_incl in Hv. apply in_map_iff in Hv. destruct Hv as [x [<- _]].
  apply Qabs_nonneg.
Qed.

(** ** A channel of zeros *)

Lemma combine_seq_In (l : list Q) (a k : nat) (v d : Q) :
  In (k, v) (combine (seq a (length l)) l) ->
  (a <= k < a + length l)%nat /\ v = nth (k - a) l d.
Proof.
  revert a. induction l as [|x l IH]; intros a; simpl.
  - intros [].
  - intros [E|Hin].
    + inversion E; subst. rewrite Nat.sub_diag. split; [lia|reflexivity].
    + apply IH in Hin. destruct Hin as [Hk Hv]. split; [lia|].
      replace (k - a)%nat with (S (k - S a)) by lia. exact Hv.
Qed.

(** Every element of a slice sits at a position of its cell. *)
Lemma slice_In (axes sh : list nat) (l : list Q) (j : nat) (v d : Q) :
  In v (slice axes sh l j) ->
  exists k, (k < length l)%nat /\ cell_of axes sh k = j /\ v = nth k l d.
Proof.
  unfold slice. rewrite in_map_iff. intros [[k w] [E Hin]]. simpl in E. subst w.
  apply filter_In in Hin. destruct Hin as [Hin Hc]. simpl in Hc.
  apply Nat.eqb_eq in Hc.
  apply combine_seq_In with (d := d) in Hin. rewrite Nat.sub_0_r in Hin.
  exists k. intuition lia.
Qed.

Lemma fold_left_Qmax_zero (l : list Q) (x : Q) :
  x == 0 -> (forall v, In v l -> v == 0) -> fold_left Qmax l x == 0.
Proof.
  revert x. induction l as [|y l IH]; intros x Hx H; simpl.
  - exact Hx.
  - apply IH.
    + destruct (Q.max_spec x y) as [[_ E]|[_ E]]; rewrite E;
        [apply H; left; reflexivity|exact Hx].
    + intros v Hv. apply H. right. exact Hv.
Qed.

Lemma list_max_zero (l : list Q) :
  (forall v, In v l -> v == 0) -> list_max l == 0.
Proof.
  destruct l as [|x l]; simpl; intros H.
  - reflexivity.
  - apply fold_left_Qmax_zero.
    + apply H. left. reflexivity.
    + intros v Hv. apply H. right. exact Hv.
Qed.

Lemma sum_zero (l : list Q) : (forall v, In v l -> v == 0) -> sum l == 0.
Proof.
  induction l as [|x l IH]; simpl; intros H.
  - reflexivity.
  - rewrite (H x (or_introl eq_refl)), IH by (intros v Hv; apply H; right; exact Hv).
    reflexivity.
Qed.

Lemma mean_zero (l : list Q) : (forall v, In v l -> v == 0) -> mean l == 0.
Proof.
  intros H. unfold mean, Qdiv. rewrite (sum_zero _ H). apply Qmult_0_l.
Qed.

Lemma round_zero (q : Q) : q == 0 -> round q = 0.
Proof.
  intros H. unfold round.
  assert (Hle : Qle_bool 0 q = true) by (apply Qle_bool_iff; rewrite H; apply Qle_refl).
  rewrite Hle, H. reflexivity.
Qed.

Section ZeroElement.

Variable self : observer.
Hypothesis Hmin : (qmin self <= 0)%Z.
Hypothesis Hmax : (0 <= qmax self)%Z.

Lemma clip_zero : clip 0 (qmin self) (qmax self) == 0.
Proof.
  unfold clip.
  assert (H1 : Qmax 0 (inject_Z (qmin self)) == 0).
  { apply Q.max_l. change 0 with (inject_Z 0). rewrite <- Zle_Qle. exact Hmin. }
  rewrite H1. apply Q.min_l. change 0 with (inject_Z 0).
  rewrite <- Zle_Qle. exact Hmax.
Qed.

(** A zero is reconstructed without error at every scale. *)
Lemma zero_element_error (x s : Q) :
  x == 0 -> (x - dequant self (quant self x s) s) ^ 2 == 0.
Proof.
  intros Hx. unfold dequant, quant.
  rewrite round_zero by (rewrite Hx; unfold Qdiv; ring).
  rewrite clip_zero, Hx. unfold Qdiv. ring.
Qed.

End ZeroElement.

Section ZeroChannel.

Variable self : observer.
Variable inputs : tensor.
Variable c : nat.

Let axes : list nat := reduce_axis_of self inputs.
Let amv : list Q := abs_max_values_of self inputs.
Let channels : nat := channels_of self inputs.

Hypothesis Hc : (c < channels)%nat.
Hypothesis Hzero : zero_channel self inputs c.
Hypothesis Hmin : (qmin self <= 0)%Z.
Hypothesis Hmax : (0 <= qmax self)%Z.

Lemma zero_channel_abs_max : nth c amv 0 = eps.
Proof.
  unfold amv. rewrite abs_max_values_nth by exact Hc.
  unfold guard_zero.
  replace (Qeq_bool _ 0) with true; [reflexivity|].
  symmetry. apply Qeq_bool_iff, list_max_zero. intros v Hv.
  apply slice_In with (d := 0) in Hv. destruct Hv as [k [Hk [Hcell ->]]].
  rewrite length_map in Hk.
  change 0 with (Qabs 0) at 1. rewrite map_nth.
  rewrite (Hzero Hk Hcell). reflexivity.
Qed.

Lemma zero_channel_mse (scales : list Q) :
  nth c (mse_loss_of self inputs scales) 0 == 0.
Proof.
  unfold mse_loss_of, reduce. simpl.
  rewrite nth_map_seq by exact Hc.
  apply mean_zero. intros v Hv.
  apply slice_In with (d := 0) in Hv. destruct Hv as [k [Hk [Hcell ->]]].
  rewrite !map2_length in Hk.
  rewrite (nth_map2 _ _ _ 0 0) by (rewrite ?map2_length; lia).
  rewrite (nth_map2 _ _ _ 0 0) by (rewrite ?map2_length; lia).
  rewrite (nth_map2 _ _ _ 0 0) by lia.
  apply zero_element_error; try assumption.
  apply Hzero; [lia|exact Hcell].
Qed.

Lemma step_settled (v : Q) (st : search_state) :
  settled self inputs c v st -> settled self inputs c v (search_step self inputs amv st).
Proof.
  intros [Hsz [Hr [m [Hm Hm0]]]]. split; [apply step_sized, Hsz|]. split.
  - unfold amv. rewrite step_result by assumption.
    fold amv. rewrite Hm. simpl.
    replace (Qle_bool m _) with true; [exact Hr|].
    symmetry. apply Qle_bool_iff. rewrite Hm0, zero_channel_mse. apply Qle_refl.
  - unfold amv. rewrite step_minimum_loss by assumption.
    fold amv. rewrite Hm. simpl. eexists. split; [reflexivity|].
    rewrite Q.min_l; [apply zero_channel_mse|].
    rewrite Hm0, zero_channel_mse. apply Qle_refl.
Qed.

Lemma run_grid_settled (v : Q) (g : list spec_float) (st : search_state) :
  settled self inputs c v st -> settled self inputs c v (run_grid self inputs amv g st).
Proof.
  revert st. induction g as [|f g IH]; intros st H; simpl.
  - exact H.
  - apply IH, step_settled, H.
Qed.

Lemma first_step_settled :
  settled self inputs c (PyFloat.to_Q PyFloat.lit_0_3 * eps)
    (search_step self inputs amv (initial_state amv)).
Proof.
  pose proof (initial_sized self inputs) as Hs0. fold amv in Hs0.
  split; [apply step_sized, Hs0|]. split.
  - unfold amv. rewrite first_step_result. fold amv.
    rewrite nth_scaled by (unfold amv; rewrite abs_max_values_length; exact Hc).
    rewrite zero_channel_abs_max. reflexivity.
  - unfold amv. rewrite step_minimum_loss by assumption. fold amv.
    simpl minimum_loss.
    change PInf with ((fun _ : Q => PInf) 0) at 2. rewrite map_nth.
    simpl. eexists. split; [reflexivity|]. apply zero_channel_mse.
Qed.

Lemma zero_channel_result :
  nth c (result (run_grid self inputs amv candidates (initial_state amv))) 0 =
  PyFloat.to_Q PyFloat.lit_0_3 * eps.
Proof.
  rewrite candidates_unfold, run_grid_cons.
  apply run_grid_settled, first_step_settled.
Qed.

End ZeroChannel.

(** ** The search minimises over its candidates *)

Lemma slice_ext_from (P : nat -> bool) (l1 l2 : list Q) (a : nat) :
  length l1 = length l2 ->
  (forall i, (i < length l1)%nat -> P (a + i)%nat = true ->
             nth i l1 0 = nth i l2 0) ->
  map snd (filter (fun p => P (fst p)) (combine (seq a (length l1)) l1)) =
  map snd (filter (fun p => P (fst p)) (combine (seq a (length l2)) l2)).
Proof.
  revert l2 a. induction l1 as [|x l1 IH]; intros [|y l2] a Hlen H;
    try discriminate; [reflexivity|].
  simpl in *. injection Hlen as Hlen.
  assert (IH' : map snd (filter (fun p => P (fst p)) (combine (seq (S a) (length l1)) l1)) =
                map snd (filter (fun p => P (fst p)) (combine (seq (S a) (length l2)) l2))).
  { apply IH; [exact Hlen|]. intros i Hi HP. apply (H (S i)); [lia|].
    rewrite <- HP. f_equal. lia. }
  destruct (P a) eqn:E; simpl; [|exact IH'].
  f_equal; [|exact IH'].
  apply (H O); [lia|]. rewrite Nat.add_0_r. exact E.
Qed.

Lemma slice_ext (axes sh : list nat) (l1 l2 : list Q) (j : nat) :
  length l1 = length l2 ->
  (forall k, (k < length l1)%nat -> cell_of axes sh k = j ->
             nth k l1 0 = nth k l2 0) ->
  slice axes sh l1 j = slice axes sh l2 j.
Proof.
  intros Hlen H. unfold slice.
  apply (slice_ext_from (fun k => Nat.eqb (cell_of axes sh k) j) l1 l2 0 Hlen).
  intros i Hi HP. apply H; [exact Hi|]. apply Nat.eqb_eq. exact HP.
Qed.

Section Locality.

Variable self : observer.
Variable inputs : tensor.
Variable c : nat.

(** The error of a channel depends on the scale of that channel only. *)
Lemma mse_loss_local (scales1 scales2 : list Q) :
  nth c scales1 0 = nth c scales2 0 ->
  nth c (mse_loss_of self inputs scales1) 0 =
  nth c (mse_loss_of self inputs scales2) 0.
Proof.
  intros Hs.
  destruct (Nat.lt_ge_cases c (channels_of self inputs)) as [Hc|Hc].
  - unfold mse_loss_of, reduce. cbn [data shape].
    rewrite !nth_map_seq by exact Hc. f_equal.
    apply slice_ext.
    + rewrite !map2_length. unfold unsqueeze. rewrite !length_map, !length_seq.
      reflexivity.
    + intros k Hk Hcell. rewrite !map2_length in Hk. unfold unsqueeze in *.
      rewrite !length_map, !length_seq in Hk.
      assert (Hex : forall sc, (k < length (unsqueeze (reduce_axis_of self inputs) (shape inputs) sc))%nat)
        by (intros sc; unfold unsqueeze; rewrite length_map, length_seq; lia).
      fold (unsqueeze (reduce_axis_of self inputs) (shape inputs) scales1).
      fold (unsqueeze (reduce_axis_of self inputs) (shape inputs) scales2).
      rewrite !(nth_map2 _ _ _ 0 0 0)
        by (rewrite ?map2_length; try apply Nat.min_glb_lt;
            try apply Nat.min_glb_lt; try apply Hex; lia).
      unfold unsqueeze. rewrite !nth_map_seq by lia. rewrite Hcell, Hs.
      reflexivity.
  - rewrite !nth_overflow by (rewrite mse_loss_length; exact Hc). reflexivity.
Qed.

Lemma mse_loss_channel (scales : list Q) :
  (c < channels_of self inputs)%nat ->
  nth c (mse_loss_of self inputs scales) 0 =
  channel_mse self inputs c (nth c scales 0).
Proof.
  intros Hc. unfold channel_mse. apply mse_loss_local.
  rewrite nth_map_const by (rewrite abs_max_values_length; exact Hc).
  reflexivity.
Qed.

End Locality.

Lemma best_so_far_weaken self inputs (V G : list spec_float) (c : nat)
    (st : search_state) :
  (forall f, In f G -> In f V) ->
  best_so_far self inputs V c st -> best_so_far self inputs G c st.
Proof.
  intros Hsub [m [H1 [H2 H3]]]. exists m. split; [exact H1|]. split; [exact H2|].
  intros f Hf. apply H3, Hsub, Hf.
Qed.

Section Minimises.

Variable self : observer.
Variable inputs : tensor.
Variable c : nat.
Hypothesis Hc : (c < channels_of self inputs)%nat.

Let amv : list Q := abs_max_values_of self inputs.

Lemma candidate_mse (f : spec_float) :
  nth c (mse_loss_of self inputs (map (Qmult (PyFloat.to_Q f)) amv)) 0 =
  channel_mse self inputs c (PyFloat.to_Q f * nth c amv 0).
Proof.
  rewrite mse_loss_channel by exact Hc.
  rewrite nth_scaled by (unfold amv; rewrite abs_max_values_length; exact Hc).
  reflexivity.
Qed.

Lemma step_best (V : list spec_float) (st : search_state) :
  sized self inputs st ->
  best_so_far self inputs V c st ->
  best_so_far self inputs (factor st :: V) c (search_step self inputs amv st).
Proof.
  intros Hsz [m [Hm [Hres Hall]]]. unfold best_so_far.
  unfold amv. rewrite step_result, step_minimum_loss by assumption. fold amv.
  rewrite candidate_mse, Hm. cbn [lt_loss minimum].
  set (e := channel_mse self inputs c (PyFloat.to_Q (factor st) * nth c amv 0)) in *.
  eexists. split; [reflexivity|].
  destruct (Qle_bool m e) eqn:E; cbn [negb].
  - apply Qle_bool_iff in E.
    assert (Hmin : Qmin e m == m) by (apply Q.min_r; exact E).
    split; [rewrite Hmin; exact Hres|].
    intros f [<-|Hf]; rewrite Hmin; [exact E|apply Hall, Hf].
  - assert (Hlt : e < m).
    { apply Qnot_le_lt. intros H. apply Qle_bool_iff in H. congruence. }
    assert (Hmin : Qmin e m == e) by (apply Q.min_l, Qlt_le_weak, Hlt).
    split; [rewrite Hmin; reflexivity|].
    intros f [<-|Hf]; rewrite Hmin; [apply Qle_refl|].
    eapply Qle_trans; [apply Qlt_le_weak, Hlt|apply Hall, Hf].
Qed.

Lemma run_grid_best (fuel : nat) (st : search_state) (f0 : spec_float)
    (V G : list spec_float) :
  factor st = f0 -> sized self inputs st ->
  best_so_far self inputs V c st ->
  (forall f, In f G -> In f V \/ In f (factor_grid fuel f0)) ->
  best_so_far self inputs G c (run_grid self inputs amv (factor_grid fuel f0) st).
Proof.
  revert st f0 V. induction fuel as [|fuel IH]; intros st f0 V Hf Hsz Hbest Hsub.
  - cbn [factor_grid run_grid]. apply best_so_far_weaken with (V := V); [|exact Hbest].
    intros f HG. destruct (Hsub f HG) as [H|[]]. exact H.
  - cbn [factor_grid] in *.
    destruct (PyFloat.leb f0 PyFloat.lit_1_0).
    + cbn [run_grid]. apply IH with (V := f0 :: V).
      * unfold amv. rewrite step_factor, Hf. reflexivity.
      * apply step_sized, Hsz.
      * rewrite <- Hf. apply step_best; assumption.
      * intros f HG. destruct (Hsub f HG) as [H|[H|H]].
        -- left. right. exact H.
        -- left. left. exact H.
        -- right. exact H.
    + cbn [run_grid]. apply best_so_far_weaken with (V := V); [|exact Hbest].
      intros f HG. destruct (Hsub f HG) as [H|[]]. exact H.
Qed.

Lemma first_step_best :
  best_so_far self inputs [PyFloat.lit_0_3] c
    (search_step self inputs amv (initial_state amv)).
Proof.
  unfold best_so_far.
  unfold amv. rewrite first_step_result, step_minimum_loss;
    [|apply initial_sized|exact Hc]. fold amv.
  cbn [initial_state minimum_loss factor].
  rewrite nth_map_const by (unfold amv; rewrite abs_max_values_length; exact Hc).
  rewrite candidate_mse. cbn [minimum].
  rewrite nth_scaled by (unfold amv; rewrite abs_max_values_length; exact Hc).
  eexists. split; [reflexivity|]. split; [reflexivity|].
  intros f [<-|[]]. apply Qle_refl.
Qed.

(** The search minimises over its candidates: in every channel the error
    at the returned scale is at most the error at each candidate scale. *)
Lemma search_minimises (f : spec_float) :
  In f candidates ->
  nth c (mse_loss_of self inputs
           (result (run_grid self inputs amv candidates (initial_state amv)))) 0 <=
  nth c (mse_loss_of self inputs (map (Qmult (PyFloat.to_Q f)) amv)) 0.
Proof.
  intros Hin. rewrite candidate_mse, mse_loss_channel by exact Hc.
  assert (Hbest : best_so_far self inputs candidates c
                    (run_grid self inputs amv candidates (initial_state amv))).
  { pose proof candidates_unfold as E. rewrite E at 2. rewrite run_grid_cons.
    apply (@run_grid_best 63 _ _ [PyFloat.lit_0_3]).
    - apply first_step_factor.
    - apply step_sized, initial_sized.
    - apply first_step_best.
    - intros g Hg. rewrite E in Hg. destruct Hg as [<-|Hg];
        [left; left; reflexivity|right; exact Hg]. }
  destruct Hbest as [m [_ [Hm Hall]]]. rewrite <- Hm. apply Hall, Hin.
Qed.

End Minimises.

(** ** The cached fields *)

Ltac destruct_observer self :=
  destruct self as [bits closs lo hi axis [mx|] [sc|] [zp|]].

Ltac crush_state :=
  repeat match goal with
    | H : _ /\ _ |- _ => destruct H
    | H : exists _, _ |- _ => destruct H
    | H : Some _ = Some _ |- _ => inversion H; clear H; subst
    | H : Some _ = None |- _ => discriminate H
    | H : None = Some _ |- _ => discriminate H
    end.

Ltac solve_coherent self H :=
  destruct_observer self; unfold coherent in *; simpl in *;
  destruct H as [H|H]; crush_state;
  first [ left; split; reflexivity
        | right; eexists; repeat split; reflexivity ].

Lemma coherent_init qq axis bits : coherent (__init__ qq axis bits).
Proof. left. split; reflexivity. Qed.

Lemma forward_state (fuel : nat) (inputs : tensor) (self : observer) :
  state_after (forward fuel inputs) self = self \/
  exists r, _max self = None /\ _cal_abs_max fuel self inputs = Some r /\
            state_after (forward fuel inputs) self = set_max (Some r) self.
Proof.
  unfold state_after, forward, bind, get.
  destruct (_max self) eqn:E; [left; reflexivity|].
  destruct (_cal_abs_max fuel self inputs) as [r|]; [|left; reflexivity].
  right. exists r. auto.
Qed.

Lemma perform_coherent (c : call) (self : observer) :
  coherent self -> coherent (perform c self).
Proof.
  intros H. destruct c as [fuel inputs| | | | | ]; simpl.
  - destruct (forward_state fuel inputs self) as [->|[r [E [_ ->]]]]; [exact H|].
    destruct H as [H|[m [Hm _]]]; [left; exact H|congruence].
  - exact H.
  - exact H.
  - solve_coherent self H.
  - solve_coherent self H.
  - solve_coherent self H.
Qed.

Lemma run_coherent (cs : list call) (self : observer) :
  coherent self -> coherent (run cs self).
Proof.
  revert self. unfold run. induction cs as [|c cs IH]; intros self H; simpl.
  - exact H.
  - apply IH, perform_coherent, H.
Qed.

Lemma perform_unset (c : call) (self : observer) :
  is_forward c = false -> unset self -> perform c self = self.
Proof.
  intros Hc [H1 [H2 H3]]. destruct_observer self; simpl in *; try discriminate.
  destruct c; try discriminate; reflexivity.
Qed.

Lemma run_unset (cs : list call) (self : observer) :
  forallb (fun c => negb (is_forward c)) cs = true -> unset self ->
  run cs self = self.
Proof.
  unfold run. induction cs as [|c cs IH]; simpl; intros Hcs Hu.
  - reflexivity.
  - apply andb_true_iff in Hcs. destruct Hcs as [Hc Hcs].
    apply negb_true_iff in Hc. rewrite (perform_unset _ Hc Hu). apply IH; assumption.
Qed.

Lemma same_frame_refl (s : observer) : same_frame s s.
Proof. repeat split. Qed.

Lemma forward_frame (fuel : nat) (inputs : tensor) (self : observer) :
  same_frame self (state_after (forward fuel inputs) self).
Proof.
  destruct (forward_state fuel inputs self) as [->|[r [_ [_ ->]]]];
    repeat split.
Qed.

Lemma forwards_frame (l : list (nat * tensor)) (self : observer) :
  same_frame self (run (forwards l) self).
Proof.
  revert self. unfold run. induction l as [|[fuel t] l IH]; intros self; simpl.
  - apply same_frame_refl.
  - specialize (IH (state_after (forward fuel t) self)).
    pose proof (forward_frame fuel t self) as H.
    unfold same_frame in *. intuition congruence.
Qed.

(** Once [_max] is stored, [forward] is a no-op. *)
Lemma forward_cached (fuel : nat) (inputs : tensor) (self : observer) (m : tensor) :
  _max self = Some m -> forward fuel inputs self = Ok inputs self.
Proof.
  intros H. unfold forward, bind, get. rewrite H. reflexivity.
Qed.

Lemma forwards_cached (l : list (nat * tensor)) (self : observer) (m : tensor) :
  _max self = Some m -> run (forwards l) self = self.
Proof.
  unfold run. induction l as [|[fuel t] l IH]; simpl; intros H.
  - reflexivity.
  - unfold state_after. rewrite (forward_cached _ _ _ H). exact (IH H).
Qed.


(** * The claims *)

(** ** C1: the candidate factors *)

Lemma candidates_below_one (f : spec_float) :
  In f candidates -> PyFloat.to_Q f < 1.
Proof. intros H. apply candidates_proper, H. Qed.

(** C1, as the code has it: the loop of [_cal_abs_max] never evaluates
    the factor 1.00.  For every input the body runs for 35 values of
    [factor], starting at 0.3; the last is 0.9800000000000005
    (8827055269646177 * 2^-53); the next value of [factor],
    1.0000000000000004, fails [factor <= 1.0].  No candidate is 1.0 and
    every candidate is below 1: the claim's 36 candidates with 1.00 among
    them are not what [factor += 0.02] produces in binary64. *)
Theorem C1_grid_stops_before_one :
  (forall n, factor_grid (36 + n) PyFloat.lit_0_3 = candidates) /\
  length candidates = 35%nat /\
  hd PyFloat.lit_1_0 candidates = PyFloat.lit_0_3 /\
  last candidates PyFloat.lit_1_0 = S754_finite false 8827055269646177 (-53) /\
  PyFloat.add (last candidates PyFloat.lit_1_0) PyFloat.lit_0_02 =
    S754_finite false 4503599627370498 (-52) /\
  PyFloat.leb (S754_finite false 4503599627370498 (-52)) PyFloat.lit_1_0 = false /\
  ~ In PyFloat.lit_1_0 candidates /\
  (forall f, In f candidates -> PyFloat.to_Q f < 1) /\
  (forall n self inputs,
      _cal_abs_max (36 + n) self inputs =
      Some {| shape := reduced_shape (reduce_axis_of self inputs) (shape inputs);
              data := result (run_grid self inputs (abs_max_values_of self inputs)
                                candidates
                                (initial_state (abs_max_values_of self inputs))) |}).
Proof.
  split; [intros n; apply factor_grid_enough; lia|].
  split; [apply candidates_length|].
  split; [vm_compute; reflexivity|].
  split; [vm_compute; reflexivity|].
  split; [vm_compute; reflexivity|].
  split; [vm_compute; reflexivity|].
  split.
  - intros H. apply candidates_below_one in H. vm_compute in H. discriminate H.
  - split; [exact candidates_below_one|].
    intros n self inputs. apply _cal_abs_max_enough. lia.
Qed.

(** ** C3: the returned scale against the raw abs-max *)

(** What the search returns on the example: 0.98.. times 4 and 40. *)
Example example_search :
  _cal_abs_max 36 example_observer example_tensor = Some example_max /\
  map Qred (data example_max) =
    [8827055269646177 # 2251799813685248; 44135276348230885 # 1125899906842624].
Proof. split; vm_compute; reflexivity. Qed.

(** The search does minimise, but over its candidates only: in every
    channel the error at the returned scale is at most the error at each
    of the 35 candidate scales. *)
Lemma search_result_minimises (fuel : nat) (self : observer) (inputs : tensor)
    (c : nat) (f : spec_float) :
  (36 <= fuel)%nat -> (c < channels_of self inputs)%nat -> In f candidates ->
  exists r,
    _cal_abs_max fuel self inputs = Some r /\
    nth c (mse_loss_of self inputs (data r)) 0 <=
    nth c (mse_loss_of self inputs
             (map (Qmult (PyFloat.to_Q f)) (abs_max_values_of self inputs))) 0.
Proof.
  intros Hfuel Hc Hin. rewrite (_cal_abs_max_enough self inputs Hfuel).
  eexists. split; [reflexivity|]. cbn [data]. apply search_minimises; assumption.
Qed.

(** C3, as the code has it: on the tensor
    [[[1, 2, 3, 4], [10, 20, 30, -40]]] (axis 0, 8 bits), where every
    channel has non-zero elements, the search returns 0.98.. times the
    abs-max of each channel, and in both channels the mean squared
    reconstruction error at the returned scale is strictly greater than
    the error at the raw abs-max [4] and [40]: the factor 1.0 that would
    give the raw abs-max is never among the candidates (C1). *)
Theorem C3_searched_scale_loses_to_abs_max :
  exists r,
    _cal_abs_max 36 example_observer example_tensor = Some r /\
    abs_max_values_of example_observer example_tensor = [4; 40] /\
    forall c, (c < 2)%nat ->
      nth c (mse_loss_of example_observer example_tensor [4; 40]) 0 <
      nth c (mse_loss_of example_observer example_tensor (data r)) 0.
Proof.
  eexists. split; [vm_compute; reflexivity|].
  split; [vm_compute; reflexivity|].
  intros [|[|c]] Hc; [vm_compute; reflexivity|vm_compute; reflexivity|lia].
Qed.

(** ** C4: a channel of zeros *)


Lemma zero_row_is_zero : zero_channel example_observer zero_row_tensor 1.
Proof.
  intros k Hk Hcell. simpl in Hk.
  destruct k as [|[|[|[|[|[|k]]]]]];
    try (vm_compute in Hcell; discriminate Hcell);
    try reflexivity.
  exfalso. apply (proj1 (Nat.lt_nge _ _) Hk).
  repeat apply le_n_S. apply Nat.le_0_l.
Defined.


(** ** C9: the result is a candidate scale *)



(** ** C7: no error path *)




(** ** C8: the scales after calibration *)

Lemma zeros_nth (t : tensor) (c : nat) (d : Q) :
  (c < length (data t))%nat -> nth c (data (zeros t)) d = 0.
Proof. intros H. unfold zeros. cbn [data]. apply nth_map_const, H. Qed.

Lemma scaled_within (f a : Q) : 0 < f -> f < 1 -> 0 < a -> 0 < f * a /\ f * a <= a.
Proof. intros Hf0 Hf1 Ha. split; nra. Qed.


Lemma example_axis_valid : valid_axis (__init__ (qmin_qmax 8) 0 8) example_tensor.
Proof. unfold valid_axis. vm_compute. split; [discriminate|reflexivity]. Defined.


(** ** C2: accessors before any [forward] *)

(** C2, counterexample: on a fresh observer [max_value()] does not fail;
    it returns [None]. *)
Lemma C2_max_value_returns_none :
  max_value example_observer = Ok None example_observer /\
  (forall e s, max_value example_observer <> Raise e s).
Proof.
  split; [reflexivity|]. intros e s H. discriminate H.
Qed.

Lemma unset_accessors (self : observer) :
  unset self ->
  scales self = Raise AttributeError self /\
  zero_points self = Raise AttributeError self /\
  cal_thresholds self = Raise AttributeError self /\
  max_value self = Ok None self.
Proof.
  intros [H1 [H2 H3]]. destruct_observer self; simpl in *; try discriminate.
  repeat split; reflexivity.
Qed.

(** C2, amended: on an observer on which [forward] was never called,
    whatever other methods were called before, [scales()] (like
    [zero_points()] and [cal_thresholds()]) fails and returns no value:
    it raises the error of [paddle.zeros_like(None)], the code has no
    [NotCalibratedError]; [max_value()] does not fail and returns
    [None].  No call changes the observer. *)
Theorem C2_accessors_before_forward
    (cs : list call) (qq : Z * Z) (axis bits : Z) :
  forallb (fun c => negb (is_forward c)) cs = true ->
  run cs (__init__ qq axis bits) = __init__ qq axis bits /\
  scales (run cs (__init__ qq axis bits)) =
    Raise AttributeError (__init__ qq axis bits) /\
  zero_points (run cs (__init__ qq axis bits)) =
    Raise AttributeError (__init__ qq axis bits) /\
  cal_thresholds (run cs (__init__ qq axis bits)) =
    Raise AttributeError (__init__ qq axis bits) /\
  max_value (run cs (__init__ qq axis bits)) = Ok None (__init__ qq axis bits).
Proof.
  intros Hcs.
  assert (Hu : unset (__init__ qq axis bits)) by (repeat split).
  rewrite (run_unset cs Hcs Hu). split; [reflexivity|].
  apply unset_accessors, Hu.
Qed.

Lemma C2_accessors_before_forward_witness :
  run [Scales; MaxValue; ZeroPoints; CalThresholds; MinValue]
    (__init__ (qmin_qmax 8) 0 8) = __init__ (qmin_qmax 8) 0 8 /\
  scales (run [Scales; MaxValue; ZeroPoints; CalThresholds; MinValue]
            (__init__ (qmin_qmax 8) 0 8)) =
    Raise AttributeError (__init__ (qmin_qmax 8) 0 8) /\
  zero_points (run [Scales; MaxValue; ZeroPoints; CalThresholds; MinValue]
                 (__init__ (qmin_qmax 8) 0 8)) =
    Raise AttributeError (__init__ (qmin_qmax 8) 0 8) /\
  cal_thresholds (run [Scales; MaxValue; ZeroPoints; CalThresholds; MinValue]
                    (__init__ (qmin_qmax 8) 0 8)) =
    Raise AttributeError (__init__ (qmin_qmax 8) 0 8) /\
  max_value (run [Scales; MaxValue; ZeroPoints; CalThresholds; MinValue]
               (__init__ (qmin_qmax 8) 0 8)) =
    Ok None (__init__ (qmin_qmax 8) 0 8).
Proof.
  exact (@C2_accessors_before_forward
           [Scales; MaxValue; ZeroPoints; CalThresholds; MinValue]
           (qmin_qmax 8) 0 8 eq_refl).
Defined.

(** ** C5: the thresholds are the cached max *)

Lemma coherent_thresholds (self : observer) (m : tensor) :
  coherent self -> _max self = Some m ->
  cal_thresholds self =
    Ok tt (set_zero_point (Some (zeros m)) (set_scale (Some m) self)) /\
  scales self =
    Ok (Some m) (set_zero_point (Some (zeros m)) (set_scale (Some m) self)) /\
  zero_points self =
    Ok (Some (zeros m)) (set_zero_point (Some (zeros m)) (set_scale (Some m) self)).
Proof.
  intros Hc Hm. destruct_observer self; simpl in *; try discriminate;
    inversion Hm; subst;
    destruct Hc as [[H1 H2]|[m' [H0 [H1 H2]]]]; simpl in *;
    try discriminate;
    try (inversion H0; inversion H1; inversion H2; subst);
    repeat split; reflexivity.
Qed.

(** C5: in every state the observer can reach in which a max is cached,
    [cal_thresholds] stores the cached max itself as the scale and its
    zeros as the zero points; [scales()] returns the tensor that
    [max_value()] returns, [zero_points()] zeros of the same shape; and
    calling [cal_thresholds], [scales] or [zero_points] again returns the
    same values and leaves the observer as it is. *)
Theorem C5_thresholds_are_the_cached_max
    (cs : list call) (qq : Z * Z) (axis bits : Z) (m : tensor) :
  _max (run cs (__init__ qq axis bits)) = Some m ->
  exists done,
    cal_thresholds (run cs (__init__ qq axis bits)) = Ok tt done /\
    scales (run cs (__init__ qq axis bits)) = Ok (Some m) done /\
    zero_points (run cs (__init__ qq axis bits)) = Ok (Some (zeros m)) done /\
    _scale done = Some m /\ _zero_point done = Some (zeros m) /\
    max_value done = Ok (Some m) done /\
    cal_thresholds done = Ok tt done /\
    scales done = Ok (Some m) done /\
    zero_points done = Ok (Some (zeros m)) done /\
    shape (zeros m) = shape m /\
    length (data (zeros m)) = length (data m) /\
    (forall c, (c < length (data m))%nat -> nth c (data (zeros m)) 1 = 0).
Proof.
  intros Hm. set (self := run cs (__init__ qq axis bits)) in *.
  assert (Hc : coherent self) by apply run_coherent, coherent_init.
  destruct (coherent_thresholds Hc Hm) as [H1 [H2 H3]].
  exists (set_zero_point (Some (zeros m)) (set_scale (Some m) self)).
  split; [exact H1|]. split; [exact H2|]. split; [exact H3|].
  assert (Hm' : _max (set_zero_point (Some (zeros m)) (set_scale (Some m) self))
                = Some m) by exact Hm.
  repeat split.
  - unfold max_value, bind, get, ret. rewrite Hm'. reflexivity.
  - unfold cal_thresholds, bind, get, put, zeros_like, ret; cbn.
    rewrite Hm. reflexivity.
  - unfold zeros. cbn [data]. apply length_map.
  - intros c Hlt. apply zeros_nth, Hlt.
Qed.

Lemma example_forward_caches :
  _max (run [Forward 36 example_tensor] (__init__ (qmin_qmax 8) 0 8)) =
  Some example_max.
Proof. vm_compute. reflexivity. Defined.

Lemma C5_thresholds_are_the_cached_max_witness :
  exists done,
    cal_thresholds (run [Forward 36 example_tensor] (__init__ (qmin_qmax 8) 0 8))
      = Ok tt done /\
    scales (run [Forward 36 example_tensor] (__init__ (qmin_qmax 8) 0 8))
      = Ok (Some example_max) done /\
    zero_points (run [Forward 36 example_tensor] (__init__ (qmin_qmax 8) 0 8))
      = Ok (Some (zeros example_max)) done /\
    _scale done = Some example_max /\
    _zero_point done = Some (zeros example_max) /\
    max_value done = Ok (Some example_max) done /\
    cal_thresholds done = Ok tt done /\
    scales done = Ok (Some example_max) done /\
    zero_points done = Ok (Some (zeros example_max)) done /\
    shape (zeros example_max) = shape example_max /\
    length (data (zeros example_max)) = length (data example_max) /\
    (forall c, (c < length (data example_max))%nat ->
               nth c (data (zeros example_max)) 1 = 0).
Proof.
  exact (@C5_thresholds_are_the_cached_max [Forward 36 example_tensor]
           (qmin_qmax 8) 0 8 example_max example_forward_caches).
Defined.

(** ** C6: the first [forward] wins *)

Lemma run_cons (c : call) (cs : list call) (self : observer) :
  run (c :: cs) self = run cs (perform c self).
Proof. reflexivity. Qed.

(** C6: the first [forward] on an observer without cached max runs the
    search on its tensor and stores the result; every later [forward],
    with whatever tensor, returns its input and changes nothing, so
    [max_value()] after any number of them is the result for the first
    tensor. *)
Theorem C6_first_forward_wins
    (fuel : nat) (self : observer) (first : tensor) (later : list (nat * tensor)) :
  _max self = None -> (36 <= fuel)%nat ->
  exists r,
    _cal_abs_max fuel self first = Some r /\
    forward fuel first self = Ok first (set_max (Some r) self) /\
    (forall fuel' inputs,
        forward fuel' inputs (set_max (Some r) self) =
        Ok inputs (set_max (Some r) self)) /\
    run (forwards later) (set_max (Some r) self) = set_max (Some r) self /\
    max_value (run (forwards ((fuel, first) :: later)) self) =
      Ok (Some r) (set_max (Some r) self).
Proof.
  intros Hmax Hfuel.
  pose proof (_cal_abs_max_enough self first Hfuel) as E.
  eexists. split; [exact E|].
  assert (Hf : forward fuel first self =
               Ok first (set_max (Some
                 {| shape := reduced_shape (reduce_axis_of self first) (shape first);
                    data := result (run_grid self first (abs_max_values_of self first)
                                      candidates
                                      (initial_state (abs_max_values_of self first))) |})
                 self)).
  { unfold forward, bind, get, put, ret. rewrite Hmax, E. reflexivity. }
  split; [exact Hf|]. split; [|split].
  - intros fuel' inputs. eapply forward_cached. reflexivity.
  - eapply forwards_cached. reflexivity.
  - change (forwards ((fuel, first) :: later))
      with (Forward fuel first :: forwards later).
    rewrite run_cons. cbn [perform]. unfold state_after. rewrite Hf.
    erewrite forwards_cached by reflexivity. reflexivity.
Qed.

Lemma C6_first_forward_wins_witness :
  exists r,
    _cal_abs_max 36 example_observer example_tensor = Some r /\
    forward 36 example_tensor example_observer =
      Ok example_tensor (set_max (Some r) example_observer) /\
    (forall fuel' inputs,
        forward fuel' inputs (set_max (Some r) example_observer) =
        Ok inputs (set_max (Some r) example_observer)) /\
    run (forwards [(36%nat, zero_row_tensor); (O, example_tensor)])
      (set_max (Some r) example_observer) = set_max (Some r) example_observer /\
    max_value (run (forwards [(36%nat, example_tensor); (36%nat, zero_row_tensor);
                              (O, example_tensor)]) example_observer) =
      Ok (Some r) (set_max (Some r) example_observer).
Proof.
  exact (@C6_first_forward_wins 36 example_observer example_tensor
           [(36%nat, zero_row_tensor); (O, example_tensor)] eq_refl (le_n 36)).
Defined.

(** ** C10: what [forward] leaves alone *)

(** C10: [forward] writes [_max] and nothing else.  Any sequence of
    [forward] calls, from any observer, leaves [_scale], [_zero_point],
    [quant_bits], [qmin], [qmax] (and the axis) as they were; from a
    fresh observer the scale and the zero points are still unset. *)
Theorem C10_forward_writes_only_max (later : list (nat * tensor)) :
  (forall self, same_frame self (run (forwards later) self)) /\
  (forall qq axis bits,
      _scale (run (forwards later) (__init__ qq axis bits)) = None /\
      _zero_point (run (forwards later) (__init__ qq axis bits)) = None /\
      quant_bits (run (forwards later) (__init__ qq axis bits)) = bits /\
      qmin (run (forwards later) (__init__ qq axis bits)) = fst qq /\
      qmax (run (forwards later) (__init__ qq axis bits)) = snd qq).
Proof.
  split; [intros self; apply forwards_frame|].
  intros qq axis bits.
  destruct (forwards_frame later (__init__ qq axis bits))
    as [H1 [_ [H3 [H4 [_ [H6 H7]]]]]].
  rewrite H1, H3, H4, H6, H7. repeat split.
Qed.

(** * Channels, rounding and sequences of calls *)

(** ** The first candidate of least error *)

Lemma first_argmin_unique (e : nat -> Q) (n i i' : nat) :
  first_argmin e n i -> first_argmin e n i' -> i = i'.
Proof.
  intros [Hi [Hle Hlt]] [Hi' [Hle' Hlt']].
  destruct (Nat.lt_trichotomy i i') as [H|[H|H]]; [|exact H|]; exfalso.
  - apply (Qlt_irrefl (e i)). eapply Qle_lt_trans; [apply Hle, Hi'|apply Hlt', H].
  - apply (Qlt_irrefl (e i')). eapply Qle_lt_trans; [apply Hle', Hi|apply Hlt, H].
Qed.

(** Two sequences ordered alike have the same first least position. *)
Lemma first_argmin_ordered_alike (e e' : nat -> Q) (n i : nat) :
  (forall j k, (j < n)%nat -> (k < n)%nat -> (e j <= e k <-> e' j <= e' k)) ->
  first_argmin e n i -> first_argmin e' n i.
Proof.
  intros H [Hi [Hle Hlt]]. split; [exact Hi|]. split.
  - intros j Hj. apply (H i j Hi Hj), Hle, Hj.
  - intros j Hj. apply Qnot_le_lt. intros Hc.
    apply (H j i) in Hc; [|lia|exact Hi].
    apply (Qlt_irrefl (e i)). eapply Qlt_le_trans; [apply Hlt, Hj|exact Hc].
Qed.

Section FirstLeast.

Variable self : observer.
Variable inputs : tensor.
Variable c : nat.
Hypothesis Hc : (c < channels_of self inputs)%nat.

Let amv : list Q := abs_max_values_of self inputs.

Lemma grid_error_app_l (V W : list spec_float) (j : nat) :
  (j < length V)%nat ->
  grid_error self inputs (V ++ W) c j = grid_error self inputs V c j.
Proof. intros H. unfold grid_error. rewrite app_nth1 by exact H. reflexivity. Qed.

Lemma grid_error_last (V : list spec_float) (f : spec_float) :
  grid_error self inputs (V ++ [f]) c (length V) =
  channel_mse self inputs c (PyFloat.to_Q f * nth c amv 0).
Proof. unfold grid_error. rewrite nth_middle. reflexivity. Qed.

Lemma step_first_best (V : list spec_float) (st : search_state) :
  sized self inputs st ->
  first_best self inputs V c st ->
  first_best self inputs (V ++ [factor st]) c (search_step self inputs amv st).
Proof.
  intros Hsz [i [m [Hres [Hm [Hme [Hi [Hle Hlt]]]]]]].
  unfold first_best.
  unfold amv. rewrite step_result, step_minimum_loss by assumption. fold amv.
  rewrite candidate_mse by exact Hc. fold amv. rewrite Hm. cbn [lt_loss minimum].
  pose proof (grid_error_last V (factor st)) as Hlast.
  set (e := channel_mse self inputs c (PyFloat.to_Q (factor st) * nth c amv 0)) in *.
  destruct (Qle_bool m e) eqn:Ecmp; cbn [negb].
  - apply Qle_bool_iff in Ecmp.
    exists i, (Qmin e m).
    split; [rewrite app_nth1 by exact Hi; exact Hres|].
    split; [reflexivity|].
    split; [rewrite grid_error_app_l by exact Hi; rewrite Q.min_r by exact Ecmp; exact Hme|].
    split; [rewrite length_app; simpl; lia|]. split.
    + intros j Hj. rewrite length_app in Hj. simpl in Hj.
      rewrite grid_error_app_l by exact Hi.
      destruct (Nat.lt_ge_cases j (length V)) as [Hjl|Hjl].
      * rewrite grid_error_app_l by exact Hjl. apply Hle, Hjl.
      * replace j with (length V) by lia. rewrite Hlast, <- Hme. exact Ecmp.
    + intros j Hj. rewrite !grid_error_app_l by lia. apply Hlt, Hj.
  - assert (Hlt' : e < m).
    { apply Qnot_le_lt. intros H. apply Qle_bool_iff in H. congruence. }
    exists (length V), (Qmin e m).
    split; [rewrite nth_middle; reflexivity|].
    split; [reflexivity|].
    split; [rewrite Hlast; apply Q.min_l, Qlt_le_weak, Hlt'|].
    split; [rewrite length_app; simpl; lia|]. split.
    + intros j Hj. rewrite length_app in Hj. simpl in Hj. rewrite Hlast.
      destruct (Nat.lt_ge_cases j (length V)) as [Hjl|Hjl].
      * rewrite grid_error_app_l by exact Hjl.
        apply Qlt_le_weak. eapply Qlt_le_trans; [exact Hlt'|].
        rewrite Hme. apply Hle, Hjl.
      * replace j with (length V) by lia. rewrite Hlast. apply Qle_refl.
    + intros j Hj. rewrite Hlast, grid_error_app_l by exact Hj.
      eapply Qlt_le_trans; [exact Hlt'|]. rewrite Hme. apply Hle, Hj.
Qed.

Lemma run_grid_first_best (fuel : nat) (st : search_state) (f0 : spec_float)
    (V : list spec_float) :
  factor st = f0 -> sized self inputs st ->
  first_best self inputs V c st ->
  first_best self inputs (V ++ factor_grid fuel f0) c
    (run_grid self inputs amv (factor_grid fuel f0) st).
Proof.
  revert st f0 V. induction fuel as [|fuel IH]; intros st f0 V Hf Hsz Hbest.
  - cbn [factor_grid run_grid]. rewrite app_nil_r. exact Hbest.
  - cbn [factor_grid].
    destruct (PyFloat.leb f0 PyFloat.lit_1_0).
    + cbn [run_grid].
      replace (V ++ f0 :: factor_grid fuel (PyFloat.add f0 PyFloat.lit_0_02))
        with ((V ++ [f0]) ++ factor_grid fuel (PyFloat.add f0 PyFloat.lit_0_02))
        by (rewrite <- app_assoc; reflexivity).
      apply IH.
      * unfold amv. rewrite step_factor, Hf. reflexivity.
      * apply step_sized, Hsz.
      * rewrite <- Hf. apply step_first_best; assumption.
    + cbn [run_grid]. rewrite app_nil_r. exact Hbest.
Qed.

Lemma first_step_first_best :
  first_best self inputs [PyFloat.lit_0_3] c
    (search_step self inputs amv (initial_state amv)).
Proof.
  unfold first_best.
  unfold amv. rewrite first_step_result, step_minimum_loss;
    [|apply initial_sized|exact Hc]. fold amv.
  cbn [initial_state minimum_loss factor].
  rewrite nth_map_const by (unfold amv; rewrite abs_max_values_length; exact Hc).
  rewrite candidate_mse by exact Hc. fold amv. cbn [minimum].
  rewrite nth_scaled by (unfold amv; rewrite abs_max_values_length; exact Hc).
  exists O. eexists. split; [reflexivity|]. split; [reflexivity|].
  split; [reflexivity|].
  split; [simpl; lia|]. split.
  - intros [|j] Hj; [apply Qle_refl|simpl in Hj; lia].
  - intros j Hj. lia.
Qed.

(** The search, channel by channel: the returned entry is the scale of
    the first candidate of least error. *)
Lemma search_first_best :
  first_best self inputs candidates c
    (run_grid self inputs amv candidates (initial_state amv)).
Proof.
  pose proof candidates_unfold as E. rewrite E at 2. rewrite run_grid_cons.
  replace candidates
    with ([PyFloat.lit_0_3] ++
          factor_grid 63 (PyFloat.add PyFloat.lit_0_3 PyFloat.lit_0_02))
    by (symmetry; exact E).
  apply run_grid_first_best.
  - apply first_step_factor.
  - apply step_sized, initial_sized.
  - apply first_step_first_best.
Qed.

End FirstLeast.

(** ** Channels *)

Lemma nth_map_lt {A B : Type} (g : A -> B) (l : list A) (k : nat) (da : A) (db : B) :
  (k < length l)%nat -> nth k (map g l) db = g (nth k l da).
Proof.
  intros H. rewrite (nth_indep _ db (g da)) by (rewrite length_map; exact H).
  apply map_nth.
Qed.

Lemma slice_map_from (P : nat -> bool) (g : Q -> Q) (l : list Q) (a : nat) :
  map snd (filter (fun p => P (fst p)) (combine (seq a (length (map g l))) (map g l))) =
  map g (map snd (filter (fun p => P (fst p)) (combine (seq a (length l)) l))).
Proof.
  revert a. induction l as [|x l IH]; intros a; simpl.
  - reflexivity.
  - destruct (P a); simpl; rewrite IH; reflexivity.
Qed.

(** The slice of a tensor mapped elementwise is the slice, mapped. *)
Lemma slice_map (axes sh : list nat) (g : Q -> Q) (l : list Q) (j : nat) :
  slice axes sh (map g l) j = map g (slice axes sh l j).
Proof.
  unfold slice.
  apply (slice_map_from (fun k => Nat.eqb (cell_of axes sh k) j) g l 0).
Qed.

Section Channel.

Variable self : observer.
Variable inputs : tensor.
Variable c : nat.
Hypothesis Hc : (c < channels_of self inputs)%nat.

(** The abs-max of a channel is the greatest magnitude of its elements,
    with the guard against zero. *)
Lemma channel_abs_max :
  nth c (abs_max_values_of self inputs) 0 =
  guard_zero (list_max (map Qabs (channel self inputs c))).
Proof.
  rewrite abs_max_values_nth by exact Hc. unfold channel.
  rewrite slice_map. reflexivity.
Qed.

Hypothesis Hwf : well_formed inputs.

(** The loss of a channel is the mean of the squared errors of its
    elements at the scale of the channel. *)
Lemma channel_loss (scales : list Q) :
  nth c (mse_loss_of self inputs scales) 0 =
  mean (map (element_error self (nth c scales 0)) (channel self inputs c)).
Proof.
  unfold mse_loss_of, reduce, channel. cbn [data shape].
  rewrite nth_map_seq by exact Hc. f_equal.
  rewrite <- slice_map.
  assert (Hex : length (unsqueeze (reduce_axis_of self inputs) (shape inputs) scales)
                = length (data inputs)).
  { unfold unsqueeze. rewrite length_map, length_seq. symmetry. exact Hwf. }
  apply slice_ext.
  - rewrite !map2_length, Hex, length_map. lia.
  - intros k Hk Hcell. rewrite !map2_length, Hex in Hk.
    assert (Hk' : (k < length (data inputs))%nat) by lia.
    rewrite (nth_map2 _ _ _ 0 0 0) by (rewrite ?map2_length, ?Hex; lia).
    rewrite (nth_map2 _ _ _ 0 0 0) by (rewrite ?map2_length, ?Hex; lia).
    rewrite (nth_map2 _ _ _ 0 0 0) by (rewrite ?Hex; lia).
    rewrite (nth_map_lt _ _ 0 0) by exact Hk'.
    unfold unsqueeze. rewrite nth_map_seq by (rewrite <- Hwf; exact Hk').
    rewrite Hcell. reflexivity.
Qed.

Lemma channel_mse_mean (s : Q) :
  channel_mse self inputs c s =
  mean (map (element_error self s) (channel self inputs c)).
Proof.
  unfold channel_mse. rewrite channel_loss.
  rewrite nth_map_const by (rewrite abs_max_values_length; exact Hc).
  reflexivity.
Qed.

End Channel.

Lemma grid_error_channel (self : observer) (t1 t2 : tensor) (c : nat) (V : list spec_float)
    (j : nat) :
  well_formed t1 -> well_formed t2 ->
  (c < channels_of self t1)%nat -> (c < channels_of self t2)%nat ->
  channel self t1 c = channel self t2 c ->
  grid_error self t1 V c j = grid_error self t2 V c j.
Proof.
  intros W1 W2 C1 C2 E. unfold grid_error.
  rewrite !channel_mse_mean by assumption.
  rewrite !channel_abs_max by assumption.
  rewrite E. reflexivity.
Qed.

Lemma first_argmin_ext (e e' : nat -> Q) (n i : nat) :
  (forall j, e j = e' j) -> first_argmin e n i -> first_argmin e' n i.
Proof.
  intros H. apply first_argmin_ordered_alike. intros j k _ _.
  rewrite !H. reflexivity.
Qed.

(** ** The range of the returned scale *)

Lemma candidates_in_range (f : spec_float) :
  In f candidates ->
  PyFloat.to_Q first_factor <= PyFloat.to_Q f /\
  PyFloat.to_Q f <= PyFloat.to_Q last_factor.
Proof.
  assert (H : forallb in_grid_range candidates = true) by (vm_compute; reflexivity).
  rewrite forallb_forall in H. intros Hin. specialize (H f Hin).
  unfold in_grid_range in H. apply andb_true_iff in H. destruct H as [H1 H2].
  split; apply Qle_bool_iff; assumption.
Qed.

(** ** Rounding *)

Lemma round_near (y : Q) : Qabs (round y - y) <= 1 # 2.
Proof.
  apply Qabs_Qle_condition. unfold round.
  destruct (Qle_bool 0 y).
  - pose proof (Qfloor_le (y + (1 # 2))) as H1.
    pose proof (Qlt_floor (y + (1 # 2))) as H2.
    rewrite inject_Z_plus in H2. change (inject_Z 1) with 1 in H2.
    set (z := inject_Z (Qfloor (y + (1 # 2)))) in *. clearbody z.
    split; lra.
  - pose proof (Qfloor_le (- y + (1 # 2))) as H1.
    pose proof (Qlt_floor (- y + (1 # 2))) as H2.
    rewrite inject_Z_plus in H2. change (inject_Z 1) with 1 in H2.
    rewrite inject_Z_opp.
    set (z := inject_Z (Qfloor (- y + (1 # 2)))) in *. clearbody z.
    split; lra.
Qed.

Lemma round_ge_int (n : Z) (y : Q) : inject_Z n <= y -> inject_Z n <= round y.
Proof.
  intros H. unfold round.
  destruct (Qle_bool 0 y); rewrite <- Zle_Qle.
  - rewrite <- (Qfloor_Z n) at 1. apply Qfloor_resp_le. lra.
  - assert (Hlt : (Qfloor (- y + (1 # 2)) < - n + 1)%Z).
    { rewrite Zlt_Qlt. eapply Qle_lt_trans; [apply Qfloor_le|].
      rewrite inject_Z_plus, inject_Z_opp. change (inject_Z 1) with 1. lra. }
    lia.
Qed.

Lemma round_le_int (n : Z) (y : Q) : y <= inject_Z n -> round y <= inject_Z n.
Proof.
  intros H. unfold round.
  destruct (Qle_bool 0 y); rewrite <- Zle_Qle.
  - assert (Hlt : (Qfloor (y + (1 # 2)) < n + 1)%Z).
    { rewrite Zlt_Qlt. eapply Qle_lt_trans; [apply Qfloor_le|].
      rewrite inject_Z_plus. change (inject_Z 1) with 1. lra. }
    lia.
  - assert (Hge : (- n <= Qfloor (- y + (1 # 2)))%Z).
    { rewrite <- (Qfloor_Z (- n)). apply Qfloor_resp_le.
      rewrite inject_Z_opp. lra. }
    lia.
Qed.

(** ** One element through the quantizer *)

Section RoundTrip.

Variable self : observer.
Variable x s : Q.
Hypothesis Hqmax : (0 < qmax self)%Z.
Hypothesis Hs : 0 < s.

Let hi : Q := inject_Z (qmax self).

Lemma hi_pos : 0 < hi.
Proof. unfold hi. change 0 with (inject_Z 0). rewrite <- Zlt_Qlt. exact Hqmax. Qed.

Lemma scaled_le : x <= s -> x / s * hi <= hi.
Proof.
  intros H. pose proof hi_pos as Hh.
  assert (E : x / s * hi == hi - (s - x) * (hi / s)) by (field; lra).
  rewrite E.
  assert (0 <= (s - x) * (hi / s)).
  { apply Qmult_le_0_compat; [lra|].
    apply Qlt_le_weak, Qlt_shift_div_l; lra. }
  lra.
Qed.

Lemma scaled_ge : s <= x -> hi <= x / s * hi.
Proof.
  intros H. pose proof hi_pos as Hh.
  assert (E : x / s * hi == hi + (x - s) * (hi / s)) by (field; lra).
  rewrite E.
  assert (0 <= (x - s) * (hi / s)).
  { apply Qmult_le_0_compat; [lra|].
    apply Qlt_le_weak, Qlt_shift_div_l; lra. }
  lra.
Qed.

Lemma scaled_ge_neg : - s <= x -> - hi <= x / s * hi.
Proof.
  intros H. pose proof hi_pos as Hh.
  assert (E : x / s * hi == - hi + (x + s) * (hi / s)) by (field; lra).
  rewrite E.
  assert (0 <= (x + s) * (hi / s)).
  { apply Qmult_le_0_compat; [lra|].
    apply Qlt_le_weak, Qlt_shift_div_l; lra. }
  lra.
Qed.

Lemma scaled_le_neg : x <= - s -> x / s * hi <= - hi.
Proof.
  intros H. pose proof hi_pos as Hh.
  assert (E : x / s * hi == - hi - (- s - x) * (hi / s)) by (field; lra).
  rewrite E.
  assert (0 <= (- s - x) * (hi / s)).
  { apply Qmult_le_0_compat; [lra|].
    apply Qlt_le_weak, Qlt_shift_div_l; lra. }
  lra.
Qed.

(** An element within the scale is not clipped. *)
Lemma quant_in_range :
  (qmin self <= - qmax self)%Z -> Qabs x <= s ->
  quant self x s == round (x / s * hi).
Proof.
  intros Hqmin Hx. apply Qabs_Qle_condition in Hx. destruct Hx as [Hx1 Hx2].
  unfold quant, clip. fold hi.
  assert (H1 : inject_Z (qmin self) <= round (x / s * hi)).
  { eapply Qle_trans; [|apply round_ge_int with (n := (- qmax self)%Z)].
    - rewrite <- Zle_Qle. exact Hqmin.
    - rewrite inject_Z_opp. apply scaled_ge_neg, Hx1. }
  assert (H2 : round (x / s * hi) <= hi).
  { apply round_le_int, scaled_le, Hx2. }
  rewrite (Q.max_l _ _ H1). apply Q.min_l, H2.
Qed.

Lemma quant_dequant_in_range :
  (qmin self <= - qmax self)%Z -> Qabs x <= s ->
  Qabs (x - quant_dequant self x s) <= s / inject_Z (2 * qmax self).
Proof.
  intros Hqmin Hx. pose proof hi_pos as Hh.
  unfold quant_dequant, dequant. rewrite (quant_in_range Hqmin Hx). fold hi.
  pose proof (round_near (x / s * hi)) as Hr.
  apply Qabs_Qle_condition in Hr. destruct Hr as [Hr1 Hr2].
  set (r := round (x / s * hi)) in *. clearbody r.
  assert (E : x - r / hi * s == - (r - x / s * hi) * (s / hi)) by (field; lra).
  assert (E2 : s / inject_Z (2 * qmax self) == (1 # 2) * (s / hi)).
  { rewrite inject_Z_mult. fold hi. change (inject_Z 2) with 2. field. lra. }
  assert (Ht : 0 < s / hi) by (apply Qlt_shift_div_l; lra).
  rewrite E, E2. set (t := s / hi) in *. clearbody t.
  set (d := r - x / s * hi) in *. clearbody d.
  apply Qabs_Qle_condition. split; nra.
Qed.

(** An element at or beyond the scale saturates. *)
Lemma quant_saturates : s <= x -> quant self x s == hi.
Proof.
  intros Hx. unfold quant, clip. fold hi.
  assert (H1 : hi <= round (x / s * hi)) by apply round_ge_int, scaled_ge, Hx.
  apply Q.min_r. eapply Qle_trans; [exact H1|apply Q.le_max_l].
Qed.

Lemma quant_dequant_saturates : s <= x -> quant_dequant self x s == s.
Proof.
  intros Hx. pose proof hi_pos as Hh. unfold quant_dequant, dequant.
  rewrite (quant_saturates Hx). fold hi. field. lra.
Qed.

Lemma quant_saturates_neg :
  qmin self = (- qmax self)%Z -> x <= - s -> quant self x s == - hi.
Proof.
  intros Hqmin Hx. pose proof hi_pos as Hh. unfold quant, clip. fold hi.
  rewrite Hqmin, inject_Z_opp. fold hi.
  assert (H1 : round (x / s * hi) <= - hi).
  { unfold hi. rewrite <- inject_Z_opp. apply round_le_int.
    rewrite inject_Z_opp. apply scaled_le_neg, Hx. }
  rewrite (Q.max_r _ _ H1). apply Q.min_l. lra.
Qed.

Lemma quant_dequant_saturates_neg :
  qmin self = (- qmax self)%Z -> x <= - s -> quant_dequant self x s == - s.
Proof.
  intros Hqmin Hx. pose proof hi_pos as Hh. unfold quant_dequant, dequant.
  rewrite (quant_saturates_neg Hqmin Hx). fold hi. field. lra.
Qed.

End RoundTrip.

(** ** The abs-max of a channel *)

Lemma Qmax_cases (x y : Q) : Qmax x y = x \/ Qmax x y = y.
Proof.
  unfold Qmax, GenericMinMax.gmax. destruct (x ?= y); auto.
Qed.

Lemma fold_left_Qmax_In (l : list Q) (x : Q) :
  fold_left Qmax l x = x \/ In (fold_left Qmax l x) l.
Proof.
  revert x. induction l as [|y l IH]; intros x; simpl.
  - left. reflexivity.
  - destruct (IH (Qmax x y)) as [H|H].
    + rewrite H. destruct (Qmax_cases x y) as [E|E]; rewrite E; auto.
    + right. right. exact H.
Qed.

Lemma fold_left_Qmax_upper (l : list Q) (x v : Q) :
  In v l -> v <= fold_left Qmax l x.
Proof.
  revert x. induction l as [|y l IH]; intros x; simpl.
  - intros [].
  - intros [<-|H].
    + eapply Qle_trans; [apply Q.le_max_r|apply fold_left_Qmax_ge].
    + apply IH, H.
Qed.

Lemma list_max_upper (l : list Q) (v : Q) : In v l -> v <= list_max l.
Proof.
  destruct l as [|x l]; simpl.
  - intros [].
  - intros [<-|H]; [apply fold_left_Qmax_ge|apply fold_left_Qmax_upper, H].
Qed.

Lemma list_max_In (l : list Q) : l <> [] -> In (list_max l) l.
Proof.
  destruct l as [|x l]; [congruence|]. intros _. simpl.
  destruct (fold_left_Qmax_In l x) as [H|H]; [left; symmetry; exact H|right; exact H].
Qed.

Lemma guard_zero_ge (a : Q) : 0 <= a -> a <= guard_zero a.
Proof.
  intros H. unfold guard_zero. destruct (Qeq_bool a 0) eqn:E.
  - apply Qeq_bool_iff in E. rewrite E. apply Qlt_le_weak, eps_pos.
  - apply Qle_refl.
Qed.

Lemma guard_zero_nonzero (a : Q) : ~ a == 0 -> guard_zero a = a.
Proof.
  intros H. unfold guard_zero. destruct (Qeq_bool a 0) eqn:E; [|reflexivity].
  apply Qeq_bool_iff in E. contradiction.
Qed.

Lemma In_combine_seq (l : list Q) (a k : nat) (d : Q) :
  (k < length l)%nat -> In ((a + k)%nat, nth k l d) (combine (seq a (length l)) l).
Proof.
  revert a k. induction l as [|x l IH]; intros a k Hk; simpl in *; [lia|].
  destruct k as [|k].
  - left. rewrite Nat.add_0_r. reflexivity.
  - right. replace (a + S k)%nat with (S a + k)%nat by lia. apply IH. lia.
Qed.

(** The elements of a channel are the elements at the positions of its
    cell. *)
Lemma channel_elements (self : observer) (inputs : tensor) (c : nat) (x : Q) :
  In x (channel self inputs c) <->
  exists k, (k < length (data inputs))%nat /\
            cell_of (reduce_axis_of self inputs) (shape inputs) k = c /\
            x = nth k (data inputs) 0.
Proof.
  split.
  - apply slice_In.
  - intros [k [Hk [Hcell ->]]]. unfold channel, slice.
    apply in_map_iff. exists (k, nth k (data inputs) 0). split; [reflexivity|].
    apply filter_In. split.
    + apply (In_combine_seq (data inputs) 0 0 Hk).
    + simpl. apply Nat.eqb_eq, Hcell.
Qed.

Lemma channel_max_pos (l : list Q) :
  (exists x, In x l /\ ~ x == 0) -> 0 < list_max (map Qabs l).
Proof.
  intros [x [Hx Hnz]].
  eapply Qlt_le_trans; [|apply list_max_upper, in_map, Hx].
  destruct (Qle_lt_or_eq _ _ (Qabs_nonneg x)) as [H|H]; [exact H|].
  exfalso. apply Hnz.
  destruct (Qabs_Qle_condition x 0) as [Hcond _].
  destruct Hcond as [H1 H2]; [rewrite <- H; apply Qle_refl|].
  apply Qle_antisym; [exact H2|]. lra.
Qed.

(** ** What no method changes *)

Lemma same_config_refl (s : observer) : same_config s s.
Proof. repeat split. Qed.

Lemma same_config_trans (s1 s2 s3 : observer) :
  same_config s1 s2 -> same_config s2 s3 -> same_config s1 s3.
Proof. unfold same_config. intuition congruence. Qed.

Lemma perform_config (c : call) (self : observer) :
  same_config self (perform c self).
Proof.
  destruct c as [fuel inputs| | | | | ]; cbn [perform].
  - destruct (forward_state fuel inputs self) as [->|[r [_ [_ ->]]]];
      repeat split.
  - repeat split.
  - repeat split.
  - destruct_observer self; repeat split.
  - destruct_observer self; repeat split.
  - destruct_observer self; repeat split.
Qed.

Lemma run_config (cs : list call) (self : observer) :
  same_config self (run cs self).
Proof.
  revert self. unfold run. induction cs as [|c cs IH]; intros self; simpl.
  - apply same_config_refl.
  - eapply same_config_trans; [apply perform_config|apply IH].
Qed.

(** Only [forward] writes [_max]. *)
Lemma perform_max (c : call) (self : observer) :
  is_forward c = false -> _max (perform c self) = _max self.
Proof.
  intros Hc. destruct c; try discriminate; cbn [perform];
    try reflexivity; destruct_observer self; reflexivity.
Qed.

Lemma run_max (cs : list call) (self : observer) :
  forallb (fun c => negb (is_forward c)) cs = true ->
  _max (run cs self) = _max self.
Proof.
  revert self. unfold run. induction cs as [|c cs IH]; intros self Hcs; simpl in *.
  - reflexivity.
  - apply andb_true_iff in Hcs. destruct Hcs as [Hc Hcs].
    apply negb_true_iff in Hc. rewrite IH by exact Hcs. apply perform_max, Hc.
Qed.

(** ** A calibrated observer *)

Lemma perform_calibrated (c : call) (self : observer) (m : tensor) :
  _max self = Some m -> _max (perform c self) = Some m.
Proof.
  intros H. destruct c as [fuel inputs| | | | | ]; cbn [perform].
  - unfold state_after. rewrite (forward_cached _ _ _ H). exact H.
  - exact H.
  - exact H.
  - destruct_observer self; simpl in *; try discriminate; exact H.
  - destruct_observer self; simpl in *; try discriminate; exact H.
  - destruct_observer self; simpl in *; try discriminate; exact H.
Qed.

Lemma run_calibrated (cs : list call) (self : observer) (m : tensor) :
  _max self = Some m -> _max (run cs self) = Some m.
Proof.
  revert self. unfold run. induction cs as [|c cs IH]; intros self H; simpl.
  - exact H.
  - apply IH, perform_calibrated, H.
Qed.

Lemma calibrated_returns (c : call) (self : observer) (m : tensor) :
  _max self = Some m -> returns c self = true.
Proof.
  intros H. destruct c as [fuel inputs| | | | | ]; cbn [returns].
  - rewrite (forward_cached _ _ _ H). reflexivity.
  - reflexivity.
  - reflexivity.
  - destruct_observer self; simpl in *; try discriminate; reflexivity.
  - destruct_observer self; simpl in *; try discriminate; reflexivity.
  - destruct_observer self; simpl in *; try discriminate; reflexivity.
Qed.

(** ** Tensors mapped elementwise *)

Lemma channel_map_tensor (self : observer) (g : Q -> Q) (t : tensor) (c : nat) :
  channel self (map_tensor g t) c = map g (channel self t c).
Proof. unfold channel, map_tensor. cbn [shape data]. apply slice_map. Qed.

Lemma well_formed_map_tensor (g : Q -> Q) (t : tensor) :
  well_formed t -> well_formed (map_tensor g t).
Proof. unfold well_formed, map_tensor. cbn [shape data]. rewrite length_map. auto. Qed.

(** ** Means of related sequences *)

Lemma sum_scaled (lam : Q) (u v : list Q) :
  Forall2 (fun a b => b == lam * a) u v -> sum v == lam * sum u.
Proof.
  induction 1 as [|a b u v Hab _ IH]; simpl.
  - ring.
  - rewrite Hab, IH. ring.
Qed.

Lemma mean_scaled (lam : Q) (u v : list Q) :
  Forall2 (fun a b => b == lam * a) u v -> mean v == lam * mean u.
Proof.
  intros H. unfold mean. rewrite (sum_scaled H), (Forall2_length H).
  unfold Qdiv. ring.
Qed.

Lemma Forall2_maps {A : Type} (R : Q -> Q -> Prop) (f g : A -> Q) (l : list A) :
  (forall x, R (f x) (g x)) -> Forall2 R (map f l) (map g l).
Proof.
  intros H. induction l as [|x l IH]; simpl; constructor; auto.
Qed.

(** ** Rounding and clipping are odd *)

Lemma round_comp (y y' : Q) : y == y' -> round y = round y'.
Proof.
  intros H. unfold round.
  assert (E : Qle_bool 0 y = Qle_bool 0 y').
  { apply eq_true_iff_eq. rewrite !Qle_bool_iff, H. reflexivity. }
  rewrite E. destruct (Qle_bool 0 y').
  - f_equal. apply Qfloor_comp. rewrite H. reflexivity.
  - do 2 f_equal. apply Qfloor_comp. rewrite H. reflexivity.
Qed.

Lemma Qfloor_half : Qfloor (1 # 2) = 0%Z.
Proof. reflexivity. Qed.

Lemma round_opp (y : Q) : round (- y) == - round y.
Proof.
  unfold round.
  destruct (Qle_bool 0 y) eqn:E1; destruct (Qle_bool 0 (- y)) eqn:E2.
  - apply Qle_bool_iff in E1. apply Qle_bool_iff in E2.
    assert (Hy : y == 0) by lra.
    assert (F1 : Qfloor (- y + (1 # 2)) = 0%Z).
    { rewrite <- Qfloor_half. apply Qfloor_comp. rewrite Hy. reflexivity. }
    assert (F2 : Qfloor (y + (1 # 2)) = 0%Z).
    { rewrite <- Qfloor_half. apply Qfloor_comp. rewrite Hy. reflexivity. }
    rewrite F1, F2. reflexivity.
  - assert (F : Qfloor (- - y + (1 # 2)) = Qfloor (y + (1 # 2))).
    { apply Qfloor_comp. ring. }
    rewrite F, inject_Z_opp. reflexivity.
  - rewrite !inject_Z_opp. ring.
  - exfalso.
    assert (H1 : ~ 0 <= y) by (intros H; apply Qle_bool_iff in H; congruence).
    assert (H2 : ~ 0 <= - y) by (intros H; apply Qle_bool_iff in H; congruence).
    apply H1. apply Qnot_lt_le. intros H. apply H2. lra.
Qed.

Lemma clip_opp (r : Q) (h : Z) :
  (0 <= h)%Z -> clip (- r) (- h) h == - clip r (- h) h.
Proof.
  intros Hh. unfold clip. rewrite inject_Z_opp.
  assert (H0 : 0 <= inject_Z h).
  { change 0 with (inject_Z 0). rewrite <- Zle_Qle. exact Hh. }
  set (H := inject_Z h) in *. clearbody H.
  destruct (Q.max_spec (- r) (- H)) as [[A1 E1]|[A1 E1]];
    destruct (Q.max_spec r (- H)) as [[A2 E2]|[A2 E2]];
    destruct (Q.min_spec (Qmax (- r) (- H)) H) as [[B1 F1]|[B1 F1]];
    destruct (Q.min_spec (Qmax r (- H)) H) as [[B2 F2]|[B2 F2]];
    rewrite F1, F2; rewrite ?E1, ?E2 in *; lra.
Qed.

Section Symmetric.

Variable self : observer.
Hypothesis Hsym : qmin self = (- qmax self)%Z.
Hypothesis Hqmax : (0 <= qmax self)%Z.

Lemma quant_opp (x s : Q) : quant self (- x) s == - quant self x s.
Proof.
  unfold quant. rewrite Hsym.
  rewrite (round_comp (y := - x / s * inject_Z (qmax self))
             (y' := - (x / s * inject_Z (qmax self))))
    by (unfold Qdiv; ring).
  assert (E : clip (round (- (x / s * inject_Z (qmax self)))) (- qmax self) (qmax self)
              == clip (- round (x / s * inject_Z (qmax self))) (- qmax self) (qmax self)).
  { unfold clip. rewrite round_opp. reflexivity. }
  rewrite E. apply clip_opp, Hqmax.
Qed.

Lemma element_error_opp (s x : Q) :
  element_error self s (- x) == element_error self s x.
Proof.
  unfold element_error, quant_dequant, dequant.
  rewrite quant_opp. unfold Qdiv. ring.
Qed.

End Symmetric.

(** ** Scaling *)

Lemma quant_scaled (self : observer) (k x s s' : Q) :
  0 < k -> 0 < s -> s' == k * s -> quant self (k * x) s' = quant self x s.
Proof.
  intros Hk Hs Hs'. unfold quant. f_equal. apply round_comp.
  rewrite Hs'. field. split; lra.
Qed.

Lemma element_error_scaled (self : observer) (k x s s' : Q) :
  0 < k -> 0 < s -> s' == k * s ->
  element_error self s' (k * x) == k ^ 2 * element_error self s x.
Proof.
  intros Hk Hs Hs'. unfold element_error, quant_dequant.
  rewrite (quant_scaled self x Hk Hs Hs'). unfold dequant.
  rewrite Hs'. unfold Qdiv. ring.
Qed.

Lemma Qmax_scaled (k x y : Q) : 0 < k -> Qmax (k * x) (k * y) == k * Qmax x y.
Proof.
  intros Hk.
  destruct (Q.max_spec (k * x) (k * y)) as [[A1 E1]|[A1 E1]];
    destruct (Q.max_spec x y) as [[A2 E2]|[A2 E2]];
    rewrite E1, E2; try reflexivity; nra.
Qed.

Lemma fold_left_Qmax_scaled (k : Q) (u v : list Q) (x y : Q) :
  0 < k -> y == k * x -> Forall2 (fun a b => b == k * a) u v ->
  fold_left Qmax v y == k * fold_left Qmax u x.
Proof.
  intros Hk Hxy H. revert x y Hxy.
  induction H as [|a b u v Hab _ IH]; intros x y Hxy; simpl.
  - exact Hxy.
  - apply IH.
    destruct (Q.max_spec y b) as [[A1 E1]|[A1 E1]];
      destruct (Q.max_spec x a) as [[A2 E2]|[A2 E2]];
      rewrite E1, E2; try assumption; nra.
Qed.

Lemma list_max_scaled (k : Q) (u v : list Q) :
  0 < k -> Forall2 (fun a b => b == k * a) u v ->
  list_max v == k * list_max u.
Proof.
  intros Hk H. destruct H as [|a b u v Hab H]; simpl.
  - ring.
  - apply fold_left_Qmax_scaled; assumption.
Qed.

Lemma Qabs_scaled (k x : Q) : 0 < k -> Qabs (k * x) == k * Qabs x.
Proof.
  intros Hk. rewrite Qabs_Qmult, (Qabs_pos k) by lra. reflexivity.
Qed.

(** ** Two searches that order their candidates alike *)

Lemma grid_factor_pos (j : nat) : 0 < PyFloat.to_Q (nth j candidates PyFloat.lit_1_0).
Proof.
  destruct (Nat.lt_ge_cases j (length candidates)) as [H|H].
  - apply candidates_proper, nth_In, H.
  - rewrite nth_overflow by exact H. reflexivity.
Qed.

Lemma grid_error_mean (self : observer) (inputs : tensor) (c j : nat) :
  (c < channels_of self inputs)%nat -> well_formed inputs ->
  grid_error self inputs candidates c j =
  mean (map (element_error self
               (PyFloat.to_Q (nth j candidates PyFloat.lit_1_0) *
                nth c (abs_max_values_of self inputs) 0))
          (channel self inputs c)).
Proof.
  intros Hc Hwf. unfold grid_error. apply channel_mse_mean; assumption.
Qed.

(** Two channels whose errors along the grid are proportional get the
    scale of the same factor. *)
Lemma same_choice (self : observer) (t t' : tensor) (c c' : nat) (lam : Q) :
  (c < channels_of self t)%nat -> (c' < channels_of self t')%nat ->
  0 < lam ->
  (forall j, grid_error self t' candidates c' j ==
             lam * grid_error self t candidates c j) ->
  exists i,
    nth c (searched self t) 0 =
      PyFloat.to_Q (nth i candidates PyFloat.lit_1_0) *
      nth c (abs_max_values_of self t) 0 /\
    nth c' (searched self t') 0 =
      PyFloat.to_Q (nth i candidates PyFloat.lit_1_0) *
      nth c' (abs_max_values_of self t') 0.
Proof.
  intros C1 C2 Hlam HE.
  destruct (@search_first_best self t c C1) as [i1 [m1 [R1 [_ [_ F1]]]]].
  destruct (@search_first_best self t' c' C2) as [i2 [m2 [R2 [_ [_ F2]]]]].
  assert (Hi : i1 = i2).
  { apply (first_argmin_unique (e := grid_error self t' candidates c')
             (n := length candidates)); [|exact F2].
    apply first_argmin_ordered_alike with (e := grid_error self t candidates c);
      [|exact F1].
    intros j k _ _. rewrite !HE.
    set (a := grid_error self t candidates c j).
    set (b := grid_error self t candidates c k).
    clearbody a b. split; intros H; nra. }
  exists i1. split; [exact R1|]. rewrite Hi. exact R2.
Qed.

(** ** Negated weights *)

Lemma Qabs_opp_eq (x : Q) : Qabs (- x) = Qabs x.
Proof.
  destruct x as [n d]. unfold Qabs, Qopp. cbn [Qnum Qden].
  rewrite Z.abs_opp. reflexivity.
Qed.

Lemma abs_max_values_opp (self : observer) (t : tensor) :
  abs_max_values_of self (map_tensor Qopp t) = abs_max_values_of self t.
Proof.
  unfold abs_max_values_of, map_tensor. cbn [shape data].
  rewrite map_map.
  rewrite (map_ext (fun x => Qabs (- x)) Qabs Qabs_opp_eq). reflexivity.
Qed.

Lemma searched_length (self : observer) (t : tensor) :
  length (searched self t) = channels_of self t.
Proof.
  destruct (run_grid_sized candidates (initial_sized self t)) as [H _]. exact H.
Qed.

Lemma searched_opp (self : observer) (t : tensor) :
  qmin self = (- qmax self)%Z -> (0 <= qmax self)%Z -> well_formed t ->
  searched self (map_tensor Qopp t) = searched self t.
Proof.
  intros Hsym Hq Hwf.
  apply (nth_ext _ _ 0 0).
  - rewrite !searched_length. reflexivity.
  - intros c Hc. rewrite searched_length in Hc.
    change (channels_of self (map_tensor Qopp t)) with (channels_of self t) in Hc.
    destruct (@same_choice self t (map_tensor Qopp t) c c 1 Hc Hc) as [i [R1 R2]].
    + reflexivity.
    + intros j.
      rewrite !grid_error_mean by (try apply well_formed_map_tensor; assumption).
      rewrite abs_max_values_opp, channel_map_tensor, map_map.
      set (f := PyFloat.to_Q (nth j candidates PyFloat.lit_1_0)). clearbody f.
      apply mean_scaled, Forall2_maps. intros x.
      rewrite element_error_opp by assumption. ring.
    + rewrite R1, R2, abs_max_values_opp. reflexivity.
Qed.

(** ** Scaled weights *)

Lemma abs_max_scaled (self : observer) (t : tensor) (c : nat) (k : Q) :
  (c < channels_of self t)%nat -> 0 < k ->
  (exists x, In x (channel self t c) /\ ~ x == 0) ->
  nth c (abs_max_values_of self (map_tensor (Qmult k) t)) 0 ==
  k * nth c (abs_max_values_of self t) 0.
Proof.
  intros Hc Hk Hnz.
  rewrite (@channel_abs_max self (map_tensor (Qmult k) t) c Hc).
  rewrite (@channel_abs_max self t c Hc).
  rewrite channel_map_tensor, map_map.
  pose proof (@channel_max_pos (channel self t c) Hnz) as Hpos.
  assert (E : list_max (map (fun x => Qabs (k * x)) (channel self t c)) ==
              k * list_max (map Qabs (channel self t c))).
  { apply list_max_scaled; [exact Hk|].
    apply Forall2_maps. intros x. apply Qabs_scaled, Hk. }
  rewrite !guard_zero_nonzero; [exact E| |].
  - intros H. rewrite H in Hpos. apply (Qlt_irrefl 0), Hpos.
  - rewrite E. intros H. nra.
Qed.

Lemma searched_scaled (self : observer) (t : tensor) (c : nat) (k : Q) :
  (c < channels_of self t)%nat -> well_formed t -> 0 < k ->
  (exists x, In x (channel self t c) /\ ~ x == 0) ->
  nth c (searched self (map_tensor (Qmult k) t)) 0 == k * nth c (searched self t) 0.
Proof.
  intros Hc Hwf Hk Hnz.
  pose proof (@abs_max_scaled self t c k Hc Hk Hnz) as Ha.
  pose proof (@abs_max_values_pos self t c Hc) as Hpos.
  destruct (@same_choice self t (map_tensor (Qmult k) t) c c (k ^ 2) Hc Hc)
    as [i [R1 R2]].
  - nra.
  - intros j.
    rewrite !grid_error_mean by (try apply well_formed_map_tensor; assumption).
    rewrite channel_map_tensor, map_map.
    apply mean_scaled, Forall2_maps. intros x.
    pose proof (grid_factor_pos j) as Hf.
    set (f := PyFloat.to_Q (nth j candidates PyFloat.lit_1_0)) in *. clearbody f.
    apply element_error_scaled; [exact Hk| |].
    + apply Qmult_lt_0_compat; assumption.
    + rewrite Ha. ring.
  - rewrite R1, R2, Ha.
    set (f := PyFloat.to_Q (nth i candidates PyFloat.lit_1_0)). clearbody f. ring.
Qed.

(** ** The factors below the last *)

Lemma forallb_firstn_nth {A : Type} (P : A -> bool) (l : list A) (n j : nat) (d : A) :
  forallb P (firstn n l) = true -> (j < n)%nat -> (n <= length l)%nat ->
  P (nth j l d) = true.
Proof.
  intros H Hj Hn. rewrite forallb_forall in H. apply H.
  assert (E : nth j l d = nth j (firstn n l) d).
  { rewrite nth_firstn. replace (j <? n)%nat with true; [reflexivity|].
    symmetry. apply Nat.ltb_lt, Hj. }
  rewrite E. apply nth_In. rewrite length_firstn. lia.
Qed.

Lemma candidates_below_last (j : nat) :
  (j < 34)%nat ->
  PyFloat.to_Q (nth j candidates PyFloat.lit_1_0) < PyFloat.to_Q last_factor.
Proof.
  intros Hj.
  assert (H : forallb below_last (firstn 34 candidates) = true)
    by (vm_compute; reflexivity).
  pose proof (@forallb_firstn_nth _ below_last candidates 34 j PyFloat.lit_1_0 H Hj) as Hb.
  rewrite candidates_length in Hb. specialize (Hb ltac:(lia)).
  unfold below_last in Hb. rewrite Qlt_alt.
  set (cmp := PyFloat.to_Q (nth j candidates PyFloat.lit_1_0) ?=
              PyFloat.to_Q last_factor) in *.
  clearbody cmp. destruct cmp; [discriminate Hb|reflexivity|discriminate Hb].
Qed.

Lemma last_candidate : nth 34 candidates PyFloat.lit_1_0 = last_factor.
Proof. vm_compute. reflexivity. Qed.

Lemma last_factor_proper : 0 < PyFloat.to_Q last_factor /\ PyFloat.to_Q last_factor < 1.
Proof. split; reflexivity. Qed.

(** ** Means of positive sequences *)

Lemma sum_nonneg (l : list Q) : (forall v, In v l -> 0 <= v) -> 0 <= sum l.
Proof.
  induction l as [|x l IH]; simpl; intros H.
  - apply Qle_refl.
  - assert (0 <= x) by (apply H; left; reflexivity).
    assert (0 <= sum l) by (apply IH; intros v Hv; apply H; right; exact Hv).
    lra.
Qed.

Lemma sum_pos (l : list Q) :
  (forall v, In v l -> 0 <= v) -> (exists v, In v l /\ 0 < v) -> 0 < sum l.
Proof.
  induction l as [|x l IH]; simpl; intros H [v [Hv Hpos]].
  - destruct Hv.
  - assert (Hx : 0 <= x) by (apply H; left; reflexivity).
    assert (Hl : 0 <= sum l)
      by (apply sum_nonneg; intros w Hw; apply H; right; exact Hw).
    destruct Hv as [->|Hv]; [lra|].
    assert (0 < sum l).
    { apply IH; [intros w Hw; apply H; right; exact Hw|].
      exists v. split; assumption. }
    lra.
Qed.

Lemma mean_pos (l : list Q) :
  (forall v, In v l -> 0 <= v) -> (exists v, In v l /\ 0 < v) -> 0 < mean l.
Proof.
  intros H Hex. pose proof (sum_pos l H Hex) as Hs.
  unfold mean. apply Qlt_shift_div_l; [|lra].
  destruct Hex as [v [Hv _]]. destruct l as [|x l]; [destruct Hv|].
  change 0 with (inject_Z 0). rewrite <- Zlt_Qlt. simpl length. lia.
Qed.

Lemma Forall2_maps_In {A : Type} (R : Q -> Q -> Prop) (f g : A -> Q) (l : list A) :
  (forall x, In x l -> R (f x) (g x)) -> Forall2 R (map f l) (map g l).
Proof.
  induction l as [|x l IH]; simpl; intros H; constructor.
  - apply H. left. reflexivity.
  - apply IH. intros y Hy. apply H. right. exact Hy.
Qed.

(** ** A channel of one magnitude *)

Section Uniform.

Variable self : observer.
Variable inputs : tensor.
Variable c : nat.
Variable m : Q.

Hypothesis Hc : (c < channels_of self inputs)%nat.
Hypothesis Hwf : well_formed inputs.
Hypothesis Hsym : qmin self = (- qmax self)%Z.
Hypothesis Hq : (0 < qmax self)%Z.
Hypothesis Hm : 0 < m.
Hypothesis Hall : forall x, In x (channel self inputs c) -> x == 0 \/ Qabs x == m.
Hypothesis Hex : exists x, In x (channel self inputs c) /\ Qabs x == m.

Let a : Q := nth c (abs_max_values_of self inputs) 0.

Lemma uniform_abs_max : a == m.
Proof.
  unfold a. rewrite (@channel_abs_max self inputs c Hc).
  destruct Hex as [x0 [Hx0 Hm0]].
  assert (Hin : In (Qabs x0) (map Qabs (channel self inputs c)))
    by (apply in_map, Hx0).
  assert (Hge : m <= list_max (map Qabs (channel self inputs c))).
  { rewrite <- Hm0. apply list_max_upper, Hin. }
  assert (Hne : map Qabs (channel self inputs c) <> []).
  { intros E. rewrite E in Hin. exact Hin. }
  apply list_max_In in Hne. apply in_map_iff in Hne.
  destruct Hne as [y [Hy Hyin]].
  rewrite guard_zero_nonzero by (intros H; rewrite H in Hge; lra).
  rewrite <- Hy in *.
  destruct (Hall y Hyin) as [H0|H1]; [|exact H1].
  exfalso. rewrite H0 in Hge. change (Qabs 0) with 0 in Hge. lra.
Qed.

Lemma uniform_element_error (f x : Q) :
  0 < f -> f < 1 -> In x (channel self inputs c) ->
  element_error self (f * a) x == (1 - f) ^ 2 * x ^ 2.
Proof.
  intros Hf0 Hf1 Hx. pose proof uniform_abs_max as Ha.
  assert (Hs : 0 < f * a) by (rewrite Ha; nra).
  unfold element_error.
  destruct (Hall x Hx) as [H0|H1].
  - unfold quant_dequant. rewrite zero_element_error by (try exact H0; lia).
    rewrite H0. ring.
  - destruct (Qlt_le_dec x 0) as [Hneg|Hpos].
    + rewrite Qabs_neg in H1 by lra.
      assert (Hxa : x == - a) by (rewrite Ha; lra).
      assert (Hle : x <= - (f * a)) by (rewrite Hxa; rewrite Ha; nra).
      rewrite (@quant_dequant_saturates_neg self x (f * a) Hq Hs Hsym Hle).
      rewrite Hxa. ring.
    + rewrite Qabs_pos in H1 by exact Hpos.
      assert (Hxa : x == a) by (rewrite Ha; lra).
      assert (Hle : f * a <= x) by (rewrite Hxa; rewrite Ha; nra).
      rewrite (@quant_dequant_saturates self x (f * a) Hq Hs Hle).
      rewrite Hxa. ring.
Qed.

Let K : Q := mean (map (fun x => x ^ 2) (channel self inputs c)).

Lemma uniform_K_pos : 0 < K.
Proof.
  unfold K. apply mean_pos.
  - intros v Hv. apply in_map_iff in Hv. destruct Hv as [x [<- _]]. nra.
  - destruct Hex as [x0 [Hx0 Hm0]]. exists (x0 ^ 2). split.
    + apply in_map_iff. exists x0. split; [reflexivity|exact Hx0].
    + assert (Hnz : ~ x0 == 0).
      { intros H. rewrite H in Hm0. change (Qabs 0) with 0 in Hm0. lra. }
      destruct (Qlt_le_dec x0 0); [nra|].
      assert (0 < x0).
      { apply Qnot_le_lt. intros H. apply Hnz. lra. }
      nra.
Qed.

Lemma uniform_grid_error (j : nat) :
  (j < length candidates)%nat ->
  grid_error self inputs candidates c j ==
  (1 - PyFloat.to_Q (nth j candidates PyFloat.lit_1_0)) ^ 2 * K.
Proof.
  intros Hj. rewrite grid_error_mean by assumption. fold a.
  destruct (candidates_proper (nth_In candidates PyFloat.lit_1_0 Hj)) as [Hf0 Hf1].
  set (f := PyFloat.to_Q (nth j candidates PyFloat.lit_1_0)) in *. clearbody f.
  unfold K. apply mean_scaled, Forall2_maps_In. intros x Hx.
  apply uniform_element_error; assumption.
Qed.

Lemma uniform_searched :
  nth c (searched self inputs) 0 = PyFloat.to_Q last_factor * a.
Proof.
  destruct (@search_first_best self inputs c Hc) as [i [m1 [R [_ [_ F]]]]].
  destruct F as [Hi [Hle _]].
  assert (E : i = 34%nat).
  { destruct (Nat.lt_ge_cases i 34) as [Hlt|Hge];
      [|rewrite candidates_length in Hi; lia].
    exfalso.
    assert (H34 : (34 < length candidates)%nat) by (rewrite candidates_length; lia).
    specialize (Hle 34%nat H34).
    rewrite !uniform_grid_error in Hle by assumption.
    rewrite last_candidate in Hle.
    pose proof (candidates_below_last Hlt) as Hb.
    pose proof last_factor_proper as [_ Hl1].
    pose proof uniform_K_pos as HK.
    set (f := PyFloat.to_Q (nth i candidates PyFloat.lit_1_0)) in *.
    set (g := PyFloat.to_Q last_factor) in *.
    clearbody f g. set (k := K) in *. clearbody k.
    assert (H1 : (1 - g) ^ 2 < (1 - f) ^ 2) by nra.
    nra. }
  unfold searched. rewrite R, E, last_candidate. reflexivity.
Qed.

End Uniform.


(** ** The order of the elements of a channel *)

Lemma sum_perm (l l' : list Q) : Permutation l l' -> sum l' == sum l.
Proof.
  induction 1 as [|x l l' _ IH|x y l|l l' l'' _ IH1 _ IH2]; simpl.
  - reflexivity.
  - rewrite IH. reflexivity.
  - ring.
  - rewrite IH2, IH1. reflexivity.
Qed.

Lemma mean_perm (l l' : list Q) : Permutation l l' -> mean l' == mean l.
Proof.
  intros H. unfold mean. rewrite (sum_perm H), (Permutation_length H).
  reflexivity.
Qed.

Lemma list_max_perm (l l' : list Q) :
  Permutation l l' -> list_max l' == list_max l.
Proof.
  intros H. destruct l as [|x l].
  - apply Permutation_nil in H. subst l'. reflexivity.
  - assert (Hne : x :: l <> []) by discriminate.
    assert (Hne' : l' <> []).
    { intros E. subst l'. apply Permutation_sym, Permutation_nil in H.
      discriminate H. }
    apply Qle_antisym.
    + apply list_max_upper. apply Permutation_in with (l := l').
      * apply Permutation_sym, H.
      * apply list_max_In, Hne'.
    + apply list_max_upper. apply Permutation_in with (l := x :: l).
      * exact H.
      * apply list_max_In, Hne.
Qed.

Lemma guard_zero_comp (a a' : Q) : a == a' -> guard_zero a == guard_zero a'.
Proof.
  intros H. unfold guard_zero.
  assert (E : Qeq_bool a 0 = Qeq_bool a' 0).
  { apply eq_true_iff_eq. rewrite !Qeq_bool_iff, H. reflexivity. }
  rewrite E. destruct (Qeq_bool a' 0); [reflexivity|exact H].
Qed.

Lemma element_error_comp (self : observer) (s s' x : Q) :
  s == s' -> element_error self s x == element_error self s' x.
Proof.
  intros H. unfold element_error, quant_dequant.
  assert (E : quant self x s = quant self x s').
  { unfold quant. f_equal. apply round_comp. rewrite H. reflexivity. }
  rewrite E. unfold dequant. rewrite H. reflexivity.
Qed.

Section Permuted.

Variable self : observer.
Variable t1 t2 : tensor.
Variable c1 c2 : nat.

Hypothesis W1 : well_formed t1.
Hypothesis W2 : well_formed t2.
Hypothesis C1 : (c1 < channels_of self t1)%nat.
Hypothesis C2 : (c2 < channels_of self t2)%nat.
Hypothesis Hperm : Permutation (channel self t1 c1) (channel self t2 c2).

Lemma abs_max_perm :
  nth c2 (abs_max_values_of self t2) 0 == nth c1 (abs_max_values_of self t1) 0.
Proof.
  rewrite (@channel_abs_max self t1 c1 C1), (@channel_abs_max self t2 c2 C2).
  apply guard_zero_comp, list_max_perm, Permutation_map, Hperm.
Qed.

Lemma grid_error_perm (j : nat) :
  grid_error self t2 candidates c2 j == grid_error self t1 candidates c1 j.
Proof.
  rewrite !grid_error_mean by assumption.
  pose proof abs_max_perm as Ha.
  set (f := PyFloat.to_Q (nth j candidates PyFloat.lit_1_0)). clearbody f.
  set (a1 := nth c1 (abs_max_values_of self t1) 0) in *.
  set (a2 := nth c2 (abs_max_values_of self t2) 0) in *.
  clearbody a1 a2.
  rewrite (mean_perm (Permutation_map (element_error self (f * a2)) Hperm)).
  assert (E : mean (map (element_error self (f * a2)) (channel self t1 c1)) ==
              1 * mean (map (element_error self (f * a1)) (channel self t1 c1))).
  { apply mean_scaled, Forall2_maps. intros x.
    rewrite (@element_error_comp self (f * a2) (f * a1) x) by (rewrite Ha; reflexivity).
    ring. }
  rewrite E. ring.
Qed.

Lemma searched_perm :
  nth c2 (searched self t2) 0 == nth c1 (searched self t1) 0.
Proof.
  destruct (@same_choice self t1 t2 c1 c2 1 C1 C2) as [i [R1 R2]].
  - reflexivity.
  - intros j. rewrite grid_error_perm. ring.
  - rewrite R1, R2, abs_max_perm. reflexivity.
Qed.

End Permuted.

(** * Further properties *)

Lemma example_reduces : reduces example_observer example_tensor.
Proof. unfold reduces. vm_compute. discriminate. Defined.

Lemma example_well_formed : well_formed example_tensor.
Proof. reflexivity. Defined.

Lemma example_first_channel : (0 < channels_of example_observer example_tensor)%nat.
Proof. vm_compute. lia. Defined.

(** The channels of the example are its rows. *)
Example example_channels :
  channel example_observer example_tensor 0 = [1; 2; 3; 4] /\
  channel example_observer example_tensor 1 = [10; 20; 30; -40].
Proof. split; reflexivity. Qed.

(** ** X1: the first candidate of least error is returned *)



(** ** X2: a channel's scale depends on that channel only *)

(** X2: the scale of a channel is a function of the elements of that
    channel.  Two tensors that hold the same elements in channel [c] get
    the same scale for [c], whatever their other channels hold. *)
Theorem X2_scale_depends_on_own_channel
    (fuel : nat) (self : observer) (t1 t2 : tensor) (c : nat) :
  (36 <= fuel)%nat ->
  reduces self t1 -> reduces self t2 ->
  well_formed t1 -> well_formed t2 ->
  (c < channels_of self t1)%nat -> (c < channels_of self t2)%nat ->
  channel self t1 c = channel self t2 c ->
  exists r1 r2,
    _cal_abs_max fuel self t1 = Some r1 /\
    _cal_abs_max fuel self t2 = Some r2 /\
    nth c (data r1) 0 = nth c (data r2) 0.
Proof.
  intros Hfuel _ _ W1 W2 C1 C2 E.
  rewrite (_cal_abs_max_enough self t1 Hfuel), (_cal_abs_max_enough self t2 Hfuel).
  do 2 eexists. split; [reflexivity|]. split; [reflexivity|]. cbn [data].
  destruct (@search_first_best self t1 c C1) as [i1 [m1 [R1 [_ [_ F1]]]]].
  destruct (@search_first_best self t2 c C2) as [i2 [m2 [R2 [_ [_ F2]]]]].
  assert (Hi : i1 = i2).
  { apply (first_argmin_unique (e := grid_error self t2 candidates c)
             (n := length candidates)); [|exact F2].
    apply first_argmin_ext with (e := grid_error self t1 candidates c); [|exact F1].
    intros j. apply grid_error_channel; assumption. }
  rewrite R1, R2, Hi, !channel_abs_max by assumption. rewrite E. reflexivity.
Qed.

Lemma X2_scale_depends_on_own_channel_witness :
  exists r1 r2,
    _cal_abs_max 36 example_observer example_tensor = Some r1 /\
    _cal_abs_max 36 example_observer other_rows_tensor = Some r2 /\
    nth 0 (data r1) 0 = nth 0 (data r2) 0.
Proof.
  apply (@X2_scale_depends_on_own_channel 36 example_observer example_tensor
           other_rows_tensor 0).
  - apply le_n.
  - exact example_reduces.
  - unfold reduces. vm_compute. discriminate.
  - reflexivity.
  - reflexivity.
  - exact example_first_channel.
  - vm_compute. lia.
  - reflexivity.
Defined.

(** ** X3: the range of the returned scale *)



(** ** X4: one element through quantization and back *)



(** ** X5: the abs-max of a channel *)



(** ** X6: the largest element of a channel is clipped *)



(** ** X7: negated weights *)

(** X7: with a symmetric integer range ([qmin = -qmax], [0 <= qmax]) the
    search does not see the sign of the weights: on [-inputs] it returns
    the tensor it returns on [inputs]. *)
Theorem X7_negation_keeps_the_scales
    (fuel : nat) (self : observer) (inputs : tensor) :
  (36 <= fuel)%nat -> reduces self inputs ->
  qmin self = (- qmax self)%Z -> (0 <= qmax self)%Z -> well_formed inputs ->
  exists r,
    _cal_abs_max fuel self inputs = Some r /\
    _cal_abs_max fuel self (map_tensor Qopp inputs) = Some r.
Proof.
  intros Hfuel _ Hsym Hq Hwf.
  rewrite !(_cal_abs_max_enough self _ Hfuel).
  eexists. split; [reflexivity|].
  fold (searched self (map_tensor Qopp inputs)).
  rewrite (@searched_opp self inputs Hsym Hq Hwf). reflexivity.
Qed.

Lemma X7_negation_keeps_the_scales_witness :
  exists r,
    _cal_abs_max 36 example_observer example_tensor = Some r /\
    _cal_abs_max 36 example_observer (map_tensor Qopp example_tensor) = Some r.
Proof.
  apply (@X7_negation_keeps_the_scales 36 example_observer example_tensor).
  - apply le_n.
  - exact example_reduces.
  - reflexivity.
  - vm_compute. discriminate.
  - exact example_well_formed.
Defined.

(** ** X8: scaled weights *)



(** ** X9: a channel of one magnitude *)



(** ** X10: what no method changes *)

(** X10: no method writes the configuration.  After any sequence of
    calls, failed ones included, [quant_bits], [calibration_loss],
    [qmin], [qmax] and the channel axis are what they were; from a fresh
    observer they are what [__init__] stored, [calibration_loss] still
    [float('inf')].  And no method but [forward] writes [_max]. *)
Theorem X10_configuration_never_changes (cs : list call) (self : observer) :
  same_config self (run cs self) /\
  (forallb (fun c => negb (is_forward c)) cs = true ->
   _max (run cs self) = _max self) /\
  (forall qq axis bits,
      self = __init__ qq axis bits ->
      calibration_loss (run cs self) = PInf /\
      quant_bits (run cs self) = bits /\
      qmin (run cs self) = fst qq /\ qmax (run cs self) = snd qq /\
      quant_axis (run cs self) = axis).
Proof.
  split; [apply run_config|]. split; [apply run_max|].
  intros qq axis bits ->.
  destruct (run_config cs (__init__ qq axis bits)) as [H1 [H2 [H3 [H4 H5]]]].
  rewrite H1, H2, H3, H4, H5. repeat split.
Qed.

(** ** X11: a calibrated observer *)

(** X11: once a max is stored it stays, whatever is called afterwards:
    [forward] with other tensors, [cal_thresholds], the accessors.  In
    every state reached [max_value()] returns that max, [min_value()]
    returns 0 and every method returns without raising ([forward] without
    running the search). *)
Theorem X11_calibrated_observer_never_fails
    (cs : list call) (self : observer) (m : tensor) :
  _max self = Some m ->
  _max (run cs self) = Some m /\
  max_value (run cs self) = Ok (Some m) (run cs self) /\
  min_value (run cs self) = Ok 0 (run cs self) /\
  forall c, returns c (run cs self) = true.
Proof.
  intros H. pose proof (run_calibrated cs self H) as Hm.
  split; [exact Hm|]. split; [|split].
  - unfold max_value, bind, get, ret. rewrite Hm. reflexivity.
  - reflexivity.
  - intros c. apply calibrated_returns with (m := m), Hm.
Qed.

Lemma X11_calibrated_observer_never_fails_witness :
  _max (run [Scales; Forward 0 zero_row_tensor; CalThresholds; ZeroPoints; MinValue]
          calibrated_observer) = Some example_max /\
  max_value (run [Scales; Forward 0 zero_row_tensor; CalThresholds; ZeroPoints;
                  MinValue] calibrated_observer) =
    Ok (Some example_max)
      (run [Scales; Forward 0 zero_row_tensor; CalThresholds; ZeroPoints; MinValue]
         calibrated_observer) /\
  min_value (run [Scales; Forward 0 zero_row_tensor; CalThresholds; ZeroPoints;
                  MinValue] calibrated_observer) =
    Ok 0
      (run [Scales; Forward 0 zero_row_tensor; CalThresholds; ZeroPoints; MinValue]
         calibrated_observer) /\
  forall c,
    returns c (run [Scales; Forward 0 zero_row_tensor; CalThresholds; ZeroPoints;
                    MinValue] calibrated_observer) = true.
Proof.
  exact (@X11_calibrated_observer_never_fails
           [Scales; Forward 0 zero_row_tensor; CalThresholds; ZeroPoints; MinValue]
           calibrated_observer example_max eq_refl).
Defined.

(** ** X12: the order of the elements *)


